(** * inspector-ai-backend: the assessment and retrieval engine

    A shallow embedding of [src/services/ai_analysis.py]
    ([ImageAnalysisService], [VideoAnalysisService]) and of
    [src/services/code_query_service.py] ([CodeQueryService]), followed by
    the properties of the specification that concern them.

    Conventions of the embedding.
    - A Python dict used as a struct is a record.  A key read with [d['k']]
      is a field; a key read with [d.get('k', default)] is an [option]
      field (or a lookup in an association list) and the default is written
      where the source writes it.
    - A Python dict whose iteration order is observable (the NEC table, the
      subsections of a section) is an association list in insertion order.
    - A Python [float] is a binary64 [PrimFloat.float]; an [int] that only
      counts is a [nat].
    - A Python [str] is a [string] of 8-bit characters; case folding and the
      character classes of [re] are those of ASCII.  A statement that depends
      on them is stated for texts of ASCII characters ([is_ascii]).
    - Code that can raise lives in the monad [Exc]; [try_except] is the
      statement [try: ... except Exception as e: ...].
    - Calls into PIL, numpy, TensorFlow, OpenCV and [os] are fields of the
      record [Backend]: every result below holds for every backend. *)

From Stdlib Require Import String Ascii List ZArith Bool Arith Lia.
From Stdlib Require Import PrimFloat Uint63 DecimalString.
From Stdlib Require Import SpecFloat FloatOps FloatAxioms Permutation.
Import ListNotations.

#[local] Set Warnings "-inexact-float".
#[local] Open Scope string_scope.
#[local] Open Scope list_scope.

(* ================================================================== *)
(** * Python primitives *)
(* ================================================================== *)

(** ** Exceptions *)

Inductive Exc (A : Type) : Type :=
| Return (a : A)
| Raise (msg : string).

Arguments Return {A} a.
Arguments Raise {A} msg.

Definition bind {A B : Type} (m : Exc A) (k : A -> Exc B) : Exc B :=
  match m with
  | Return a => k a
  | Raise msg => Raise msg
  end.

Notation "x <- m ;; k" := (bind m (fun x => k))
  (at level 61, m at next level, right associativity).

(** [try: body  except Exception as e: handler e] where both arms return. *)
Definition try_except {A : Type} (body : Exc A) (handler : string -> A) : A :=
  match body with
  | Return a => a
  | Raise msg => handler msg
  end.

(** ** Numbers *)

(** The two numeric types a duration can have: the literal [0] is an [int],
    a quotient is a [float]. *)
Inductive PyNum : Type :=
| PInt (z : Z)
| PFloat (f : float).

(** [float(n)] for a count [n] (exact below 2^53). *)
Definition float_of_nat (n : nat) : float :=
  PrimFloat.of_uint63 (Uint63.of_Z (Z.of_nat n)).

(** [a / b] on two counts: Python's true division. *)
Definition truediv (a b : nat) : float :=
  (float_of_nat a / float_of_nat b)%float.

(** [min(a, b)]: the first argument unless the second is strictly smaller. *)
Definition py_min (a b : float) : float :=
  if PrimFloat.ltb b a then b else a.

(** ** Strings *)

(** [x] is an initial segment of [s]. *)
Fixpoint is_prefix (x s : string) : bool :=
  match x, s with
  | EmptyString, _ => true
  | String _ _, EmptyString => false
  | String a x', String b s' => Ascii.eqb a b && is_prefix x' s'
  end.

(** [x in s] on strings: [x] occurs in [s] as a contiguous substring. *)
Fixpoint str_in (x s : string) : bool :=
  is_prefix x s ||
  match s with
  | EmptyString => false
  | String _ s' => str_in x s'
  end.

(** [x in l] on a list of strings. *)
Fixpoint list_in (x : string) (l : list string) : bool :=
  match l with
  | [] => false
  | y :: l' => String.eqb x y || list_in x l'
  end.

Definition is_upper (c : ascii) : bool :=
  let n := nat_of_ascii c in ((65 <=? n) && (n <=? 90))%nat.

Definition lower_ascii (c : ascii) : ascii :=
  if is_upper c then ascii_of_nat (nat_of_ascii c + 32) else c.

(** [s.lower()] *)
Fixpoint lower (s : string) : string :=
  match s with
  | EmptyString => EmptyString
  | String c s' => String (lower_ascii c) (lower s')
  end.

(** [str(n)] for a count. *)
Definition str_of_nat (n : nat) : string :=
  NilEmpty.string_of_uint (Nat.to_uint n).

(** The two quote characters and the backslash. *)
Definition apostrophe : ascii := ascii_of_nat 39.
Definition double_quote : ascii := ascii_of_nat 34.
Definition backslash : ascii := ascii_of_nat 92.

Definition hex_digit (n : nat) : ascii :=
  match String.get n "0123456789abcdef" with
  | Some c => c
  | None => "0"%char
  end.

(** The quote [repr] puts around [s]: the apostrophe, unless [s] holds an
    apostrophe and no double quote. *)
Definition repr_quote (s : string) : ascii :=
  if str_in (String apostrophe EmptyString) s &&
     negb (str_in (String double_quote EmptyString) s)
  then double_quote else apostrophe.

(** What [repr] writes for one character. *)
Definition repr_char (quote c : ascii) : string :=
  let n := nat_of_ascii c in
  if Ascii.eqb c quote || Ascii.eqb c backslash then
    String backslash (String c EmptyString)
  else if (n =? 9)%nat then String backslash "t"
  else if (n =? 10)%nat then String backslash "n"
  else if (n =? 13)%nat then String backslash "r"
  else if ((n <? 32) || (n =? 127))%nat then
    String backslash
      (String "x" (String (hex_digit (n / 16))
                          (String (hex_digit (n mod 16)) EmptyString)))
  else String c EmptyString.

Fixpoint repr_body (quote : ascii) (s : string) : string :=
  match s with
  | EmptyString => EmptyString
  | String c s' => (repr_char quote c ++ repr_body quote s')%string
  end.

(** [repr(s)] of a string of ASCII characters. *)
Definition py_repr (s : string) : string :=
  let quote := repr_quote s in
  String quote (repr_body quote s ++ String quote EmptyString)%string.

(** ** Dicts read with [get] *)

Fixpoint dict_get {V : Type} (d : list (string * V)) (k : string) : option V :=
  match d with
  | [] => None
  | (k', v) :: d' => if String.eqb k k' then Some v else dict_get d' k
  end.

Definition get_default {V : Type} (o : option V) (default : V) : V :=
  match o with
  | Some v => v
  | None => default
  end.

(** The values a component property holds, and their truth value. *)
Inductive PropVal : Type :=
| VBool (b : bool)
| VStr (s : string).

Definition truthy (v : PropVal) : bool :=
  match v with
  | VBool b => b
  | VStr s => negb (String.eqb s "")
  end.

(* ================================================================== *)
(** * ai_analysis.py: data *)
(* ================================================================== *)

(** A detected component: the dicts built in [detect_components]. *)
Module Component.
Record t : Type := mk {
  type : string;
  confidence : float;
  bbox : list Z;
  properties : list (string * PropVal);
  id : option string
}.
End Component.

(** A violation: the dicts built in [check_code_violations]. *)
Module Violation.
Record t : Type := mk {
  type : string;
  severity : string;
  description : string;
  code_reference : option string;
  component_id : option string;
  confidence : float
}.
End Violation.

Module Summary.
Record t : Type := mk {
  components_detected : nat;
  violations_found : nat;
  high_severity : nat;
  medium_severity : nat
}.
End Summary.

(** The dict returned by [calculate_overall_assessment]; [summary = None]
    is the empty dict of its [except] arm. *)
Module Assessment.
Record t : Type := mk {
  overall_result : string;
  confidence : float;
  summary : option Summary.t
}.
End Assessment.

Module ConfidenceScores.
Record t : Type := mk {
  overall_confidence : float;
  component_detection : option float;
  violation_detection : option float
}.
End ConfidenceScores.

Module Metadata.
Record t : Type := mk {
  model_version : string;
  analysis_timestamp : float;
  image_dimensions : Z * Z
}.
End Metadata.

(** The dict returned by [analyze_image].  The three keys that the video
    service and the routes read with [get] are optional fields. *)
Module Analysis.
Record t : Type := mk {
  detected_components : option (list Component.t);
  violations_found : option (list Violation.t);
  overall_result : option string;
  confidence_scores : ConfidenceScores.t;
  summary : option Summary.t;
  recommendations : list string;
  analysis_metadata : option Metadata.t;
  error : option string
}.
End Analysis.

(** What the services ask of their libraries. *)
Record Backend : Type := {
  ndarray : Type;
  keras_model : Type;
  frame : Type;
  (** [tf.keras.Sequential([...])] of [_create_mock_model] *)
  keras_sequential : Exc keras_model;
  (** [Image.open], [convert], [resize], [np.array(...) / 255.0],
      [np.expand_dims] of [preprocess_image] *)
  pil_load : string -> Exc ndarray;
  (** the detector behind [detect_components] *)
  model_detect : ndarray -> Exc (list Component.t);
  (** [np.mean] *)
  np_mean : list float -> float;
  (** [tf.timestamp().numpy()] *)
  tf_timestamp : Exc float;
  (** [Image.open(path).size] *)
  pil_size : string -> Exc (Z * Z);
  (** [cv2.VideoCapture(path)]: the frames [cap.read()] yields before it
      reports failure, and the frame rate the video reports, which is what
      [cap.get(cv2.CAP_PROP_FPS)] answers while the capture is open *)
  cv2_frames : string -> list frame;
  cv2_fps : string -> float;
  cv2_imwrite : string -> frame -> Exc unit;
  os_makedirs : string -> Exc unit;
  os_path_dirname : string -> string;
  os_path_join : string -> string -> string
}.

Arguments keras_sequential : clear implicits.
Arguments tf_timestamp : clear implicits.

(* ================================================================== *)
(** * ai_analysis.py: ImageAnalysisService *)
(* ================================================================== *)

Definition _create_mock_model (B : Backend) : Exc (keras_model B) :=
  keras_sequential B.

(** [load_model] assigns [self.model]; its [except] arm leaves it [None]. *)
Definition load_model (B : Backend) : option (keras_model B) :=
  try_except (model <- _create_mock_model B ;; Return (Some model))
             (fun _ => None).

Definition preprocess_image (B : Backend) (image_path : string)
  : Exc (ndarray B) :=
  match pil_load B image_path with
  | Return image_array => Return image_array
  | Raise e => Raise ("Error preprocessing image: " ++ e)%string
  end.

(** The literal list the body of [detect_components] returns today. *)
Definition mock_detected_components : list Component.t :=
  [ {| Component.type := "outlet";
       Component.confidence := 0.92;
       Component.bbox := [100; 150; 200; 250]%Z;
       Component.properties :=
         [("grounded", VBool true); ("gfci_protected", VBool false)];
       Component.id := None |};
    {| Component.type := "switch";
       Component.confidence := 0.87;
       Component.bbox := [300; 100; 350; 180]%Z;
       Component.properties :=
         [("type", VStr "single_pole"); ("properly_wired", VBool true)];
       Component.id := None |} ].

(** [detect_components]: the [try] body is the detector of the backend (the
    source's body is the mock literal above, "in production this would use
    the real model"); the [except] arm returns the empty list. *)
Definition detect_components (B : Backend) (image_array : ndarray B)
  : list Component.t :=
  try_except (model_detect B image_array) (fun _ => []).

Definition missing_gfci_violation (component : Component.t) : Violation.t :=
  {| Violation.type := "missing_gfci";
     Violation.severity := "high";
     Violation.description :=
       "GFCI protection may be required for this outlet location";
     Violation.code_reference := Some "NEC 210.8";
     Violation.component_id := Component.id component;
     Violation.confidence := 0.75 |}.

Definition potential_overcrowding_violation (component : Component.t)
  : Violation.t :=
  {| Violation.type := "potential_overcrowding";
     Violation.severity := "medium";
     Violation.description :=
       "Junction box may be overcrowded - verify wire fill calculations";
     Violation.code_reference := Some "NEC 314.16";
     Violation.component_id := Component.id component;
     Violation.confidence := 0.60 |}.

(** One iteration of the [for component in components] loop: [violations]
    is the list built so far. *)
Definition check_component (violations : list Violation.t)
    (component : Component.t) : list Violation.t :=
  if (Component.type component =? "outlet")%string then
    if negb (truthy (get_default
                       (dict_get (Component.properties component)
                                 "gfci_protected")
                       (VBool false)))
    then violations ++ [missing_gfci_violation component]
    else violations
  else if (Component.type component =? "junction_box")%string then
    violations ++ [potential_overcrowding_violation component]
  else violations.

(** On records every key the loop reads exists, so the [except] arm of the
    source (which returns the empty list) is never taken. *)
Definition check_code_violations (components : list Component.t)
    (image_path : string) : list Violation.t :=
  fold_left check_component components [].

Definition calculate_overall_assessment (components : list Component.t)
    (violations : list Violation.t) : Assessment.t :=
  let high_severity_violations :=
    filter (fun v => (Violation.severity v =? "high")%string) violations in
  let medium_severity_violations :=
    filter (fun v => (Violation.severity v =? "medium")%string) violations in
  let verdict :=
    if (0 <? length high_severity_violations)%nat then ("fail", 0.85%float)
    else if (2 <? length medium_severity_violations)%nat
         then ("warning", 0.70%float)
         else ("pass", 0.90%float) in
  {| Assessment.overall_result := fst verdict;
     Assessment.confidence := snd verdict;
     Assessment.summary :=
       Some {| Summary.components_detected := length components;
               Summary.violations_found := length violations;
               Summary.high_severity := length high_severity_violations;
               Summary.medium_severity :=
                 length medium_severity_violations |} |}.

Definition no_violation_recommendation : string :=
  "Installation appears to meet basic code requirements. Consider professional inspection for final verification.".

Definition gfci_recommendation : string :=
  "Install GFCI protection for outlets in wet locations (bathrooms, kitchens, garages, etc.)".

Definition overcrowding_recommendation : string :=
  "Verify junction box fill calculations per NEC 314.16 and consider larger box if needed".

Definition grounding_recommendation : string :=
  "Ensure proper grounding connections per NEC Article 250".

(** One iteration of the loop of [_generate_recommendations]. *)
Definition recommend (recommendations : list string) (violation : Violation.t)
  : list string :=
  if (Violation.type violation =? "missing_gfci")%string then
    recommendations ++ [gfci_recommendation]
  else if (Violation.type violation =? "potential_overcrowding")%string then
    recommendations ++ [overcrowding_recommendation]
  else if (Violation.type violation =? "improper_grounding")%string then
    recommendations ++ [grounding_recommendation]
  else
    recommendations ++
      [("Address " ++ Violation.type violation ++ " - refer to " ++
        get_default (Violation.code_reference violation) "NEC")%string].

Definition _generate_recommendations (violations : list Violation.t)
  : list string :=
  let recommendations := fold_left recommend violations [] in
  match violations with
  | [] => recommendations ++ [no_violation_recommendation]
  | _ :: _ => recommendations
  end.

(** The dict of the [except] arm of [analyze_image]. *)
Definition analysis_error (e : string) : Analysis.t :=
  {| Analysis.detected_components := Some [];
     Analysis.violations_found := Some [];
     Analysis.overall_result := Some "error";
     Analysis.confidence_scores :=
       {| ConfidenceScores.overall_confidence := 0.0;
          ConfidenceScores.component_detection := None;
          ConfidenceScores.violation_detection := None |};
     Analysis.summary := None;
     Analysis.recommendations := [];
     Analysis.analysis_metadata := None;
     Analysis.error := Some e |}.

(** The [try] body of [analyze_image] after the model is loaded. *)
Definition analyze_image_body (B : Backend) (image_path : string)
  : Exc Analysis.t :=
  image_array <- preprocess_image B image_path ;;
  let components := detect_components B image_array in
  let violations := check_code_violations components image_path in
  let assessment := calculate_overall_assessment components violations in
  let component_detection :=
    match components with
    | [] => 0.0%float
    | _ :: _ => np_mean B (map Component.confidence components)
    end in
  let violation_detection :=
    match violations with
    | [] => 1.0%float
    | _ :: _ => np_mean B (map Violation.confidence violations)
    end in
  let recommendations := _generate_recommendations violations in
  analysis_timestamp <- tf_timestamp B ;;
  image_dimensions <- pil_size B image_path ;;
  Return
    {| Analysis.detected_components := Some components;
       Analysis.violations_found := Some violations;
       Analysis.overall_result := Some (Assessment.overall_result assessment);
       Analysis.confidence_scores :=
         {| ConfidenceScores.overall_confidence :=
              Assessment.confidence assessment;
            ConfidenceScores.component_detection := Some component_detection;
            ConfidenceScores.violation_detection :=
              Some violation_detection |};
       Analysis.summary := Assessment.summary assessment;
       Analysis.recommendations := recommendations;
       Analysis.analysis_metadata :=
         Some {| Metadata.model_version := "1.0.0";
                 Metadata.analysis_timestamp := analysis_timestamp;
                 Metadata.image_dimensions := image_dimensions |};
       Analysis.error := None |}.

(** [analyze_image]: [self_model] is [self.model] before the call; the
    result is the returned dict and [self.model] after the call. *)
Definition analyze_image (B : Backend) (self_model : option (keras_model B))
    (image_path : string) : Analysis.t * option (keras_model B) :=
  let self_model' :=
    match self_model with
    | None => load_model B
    | Some model => Some model
    end in
  (try_except (analyze_image_body B image_path) analysis_error, self_model').

(* ================================================================== *)
(** * ai_analysis.py: VideoAnalysisService *)
(* ================================================================== *)

Module FrameAnalysis.
Record t : Type := mk {
  frame_number : nat;
  timestamp : float;
  analysis : Analysis.t
}.
End FrameAnalysis.

Module VideoSummary.
Record t : Type := mk {
  frames_analyzed : nat;
  total_components : nat;
  total_violations : nat
}.
End VideoSummary.

(** The dict returned by [analyze_video]. *)
Module VideoAssessment.
Record t : Type := mk {
  frame_analyses : list FrameAnalysis.t;
  overall_result : string;
  duration : PyNum;
  summary : option VideoSummary.t;
  error : option string
}.
End VideoAssessment.

(** [self.frame_extraction_interval], set once in [__init__]. *)
Definition frame_extraction_interval : nat := 30.

(** The [while True] loop of [extract_key_frames]: [frames] are the frames
    [cap.read()] still has to yield; the loop ends when it reports failure. *)
Fixpoint read_frames (B : Backend) (temp_dir : string)
    (frames : list (frame B)) (frame_count : nat)
    (extracted_frames : list string) : Exc (list string * nat) :=
  match frames with
  | [] => Return (extracted_frames, frame_count)
  | image :: frames' =>
      if (frame_count mod frame_extraction_interval =? 0)%nat then
        let frame_path :=
          os_path_join B temp_dir
            ("frame_" ++ str_of_nat frame_count ++ ".jpg")%string in
        _ <- cv2_imwrite B frame_path image ;;
        read_frames B temp_dir frames' (frame_count + 1)
                    (extracted_frames ++ [frame_path])
      else
        read_frames B temp_dir frames' (frame_count + 1) extracted_frames
  end.

(** The state of a [cv2.VideoCapture] object that the property queries
    depend on: whether the capture is still open, and the frame rate of the
    video it was opened on. *)
Module VideoCapture.
Record t : Type := mk {
  opened : bool;
  fps : float
}.
End VideoCapture.

(** [cv2.VideoCapture(video_path)] *)
Definition cv2_VideoCapture (B : Backend) (video_path : string)
  : VideoCapture.t :=
  {| VideoCapture.opened := true;
     VideoCapture.fps := cv2_fps B video_path |}.

(** [cap.release()] *)
Definition cap_release (cap : VideoCapture.t) : VideoCapture.t :=
  {| VideoCapture.opened := false;
     VideoCapture.fps := VideoCapture.fps cap |}.

(** [cap.get(cv2.CAP_PROP_FPS)]: OpenCV answers 0 to a property query on
    a capture that is not open. *)
Definition cap_get_fps (cap : VideoCapture.t) : float :=
  if VideoCapture.opened cap then VideoCapture.fps cap else 0%float.

(** The [try] body of [extract_key_frames].  The source releases the
    capture before it asks for the frame rate. *)
Definition extract_key_frames_body (B : Backend) (video_path : string)
  : Exc (list string * PyNum) :=
  let cap := cv2_VideoCapture B video_path in
  let temp_dir :=
    os_path_join B (os_path_dirname B video_path) "temp_frames" in
  _ <- os_makedirs B temp_dir ;;
  read <- read_frames B temp_dir (cv2_frames B video_path) 0 [] ;;
  let extracted_frames := fst read in
  let frame_count := snd read in
  let cap := cap_release cap in
  let fps := cap_get_fps cap in
  let duration :=
    if (0 <? fps)%float then PFloat (float_of_nat frame_count / fps)%float
    else PInt 0 in
  Return (extracted_frames, duration).

Definition extract_key_frames (B : Backend) (video_path : string)
  : list string * PyNum :=
  try_except (extract_key_frames_body B video_path) (fun _ => ([], PInt 0)).

Definition _calculate_video_assessment
    (frame_analyses : list FrameAnalysis.t) : string :=
  match frame_analyses with
  | [] => "error"
  | _ :: _ =>
      let results :=
        map (fun frame =>
               get_default
                 (Analysis.overall_result (FrameAnalysis.analysis frame))
                 "unknown")
            frame_analyses in
      if list_in "fail" results then "fail"
      else if list_in "warning" results then "warning"
      else if forallb (fun result => (result =? "pass")%string) results
           then "pass"
           else "warning"
  end.

(** What the [for i, frame_path in enumerate(frame_paths)] loop carries. *)
Record FrameLoop (B : Backend) : Type := {
  loop_model : option (keras_model B);
  loop_frame_analyses : list FrameAnalysis.t;
  loop_all_components : list Component.t;
  loop_all_violations : list Violation.t
}.

Arguments loop_model {B}.
Arguments loop_frame_analyses {B}.
Arguments loop_all_components {B}.
Arguments loop_all_violations {B}.

(** The loop of [analyze_video] from index [i] on.  [analyze_image] returns
    a dict on every input, so the [except frame_error] arm is never taken. *)
Fixpoint analyze_frames (B : Backend) (i : nat) (frame_paths : list string)
    (st : FrameLoop B) : FrameLoop B :=
  match frame_paths with
  | [] => st
  | frame_path :: frame_paths' =>
      let (frame_analysis, model) :=
        analyze_image B (loop_model st) frame_path in
      analyze_frames B (i + 1) frame_paths'
        {| loop_model := model;
           loop_frame_analyses :=
             loop_frame_analyses st ++
             [ {| FrameAnalysis.frame_number := i * frame_extraction_interval;
                  FrameAnalysis.timestamp :=
                    (float_of_nat (i * frame_extraction_interval) / 30.0)%float;
                  FrameAnalysis.analysis := frame_analysis |} ];
           loop_all_components :=
             loop_all_components st ++
             get_default (Analysis.detected_components frame_analysis) [];
           loop_all_violations :=
             loop_all_violations st ++
             get_default (Analysis.violations_found frame_analysis) [] |}
  end.

(** [analyze_video]: [self_model] is [self.image_service.model] before the
    call.  [_cleanup_temp_frames] only removes files and swallows its own
    exceptions; nothing in the [try] body raises, so the outer [except] arm is
    never taken. *)
Definition analyze_video (B : Backend) (self_model : option (keras_model B))
    (video_path : string) : VideoAssessment.t * option (keras_model B) :=
  let (frame_paths, duration) := extract_key_frames B video_path in
  match frame_paths with
  | [] =>
      ({| VideoAssessment.frame_analyses := [];
          VideoAssessment.overall_result := "error";
          VideoAssessment.duration := PInt 0;
          VideoAssessment.summary := None;
          VideoAssessment.error :=
            Some "Could not extract frames from video" |},
       self_model)
  | _ :: _ =>
      let st :=
        analyze_frames B 0 frame_paths
          {| loop_model := self_model;
             loop_frame_analyses := [];
             loop_all_components := [];
             loop_all_violations := [] |} in
      let overall_result :=
        _calculate_video_assessment (loop_frame_analyses st) in
      ({| VideoAssessment.frame_analyses := loop_frame_analyses st;
          VideoAssessment.overall_result := overall_result;
          VideoAssessment.duration := duration;
          VideoAssessment.summary :=
            Some {| VideoSummary.frames_analyzed :=
                      length (loop_frame_analyses st);
                    VideoSummary.total_components :=
                      length (loop_all_components st);
                    VideoSummary.total_violations :=
                      length (loop_all_violations st) |};
          VideoAssessment.error := None |},
       loop_model st)
  end.

(* ================================================================== *)
(** * Regular expressions: the fragment of [re] the patterns use *)
(* ================================================================== *)

(** Patterns are compiled with the flag [(?i)]: a literal matches either
    case.  [Dot] is [.], which does not match a newline. *)
Inductive regex : Type :=
| Empty
| Eps
| Lit (c : ascii)
| Dot
| Cat (r s : regex)
| Alt (r s : regex)
| Star (r : regex).

Definition newline : ascii := ascii_of_nat 10.

Fixpoint nullable (r : regex) : bool :=
  match r with
  | Empty => false
  | Eps => true
  | Lit _ => false
  | Dot => false
  | Cat r s => nullable r && nullable s
  | Alt r s => nullable r || nullable s
  | Star _ => true
  end.

Definition cat (r s : regex) : regex :=
  match r, s with
  | Empty, _ => Empty
  | _, Empty => Empty
  | Eps, _ => s
  | _, _ => Cat r s
  end.

Definition alt (r s : regex) : regex :=
  match r, s with
  | Empty, _ => s
  | _, Empty => r
  | _, _ => Alt r s
  end.

(** What is left of [r] to match after the character [a]. *)
Fixpoint deriv (a : ascii) (r : regex) : regex :=
  match r with
  | Empty => Empty
  | Eps => Empty
  | Lit c => if Ascii.eqb (lower_ascii a) (lower_ascii c) then Eps else Empty
  | Dot => if Ascii.eqb a newline then Empty else Eps
  | Cat r s =>
      alt (cat (deriv a r) s) (if nullable r then deriv a s else Empty)
  | Alt r s => alt (deriv a r) (deriv a s)
  | Star r => cat (deriv a r) (Star r)
  end.

(** [re.match(r, s)] as a truth value: some prefix of [s] matches [r]. *)
Fixpoint re_match (r : regex) (s : string) : bool :=
  nullable r ||
  match s with
  | EmptyString => false
  | String a s' => re_match (deriv a r) s'
  end.

(** A literal word. *)
Fixpoint word (s : string) : regex :=
  match s with
  | EmptyString => Eps
  | String c s' => Cat (Lit c) (word s')
  end.

(** [(?:w1|w2|...)] *)
Fixpoint one_of (ws : list string) : regex :=
  match ws with
  | [] => Empty
  | [w] => word w
  | w :: ws' => Alt (word w) (one_of ws')
  end.

(** [.*first.*second.*]: the shape of the four patterns. *)
Definition two_groups (first second : list string) : regex :=
  Cat (Star Dot)
      (Cat (one_of first)
           (Cat (Star Dot) (Cat (one_of second) (Star Dot)))).

(** What [r] matches in full: the meaning [re_match] is checked against. *)
Inductive matches : regex -> string -> Prop :=
| MEps : matches Eps EmptyString
| MLit (c a : ascii) :
    lower_ascii a = lower_ascii c -> matches (Lit c) (String a EmptyString)
| MDot (a : ascii) : a <> newline -> matches Dot (String a EmptyString)
| MCat (r s : regex) (u v : string) :
    matches r u -> matches s v -> matches (Cat r s) (u ++ v)%string
| MAltL (r s : regex) (u : string) : matches r u -> matches (Alt r s) u
| MAltR (r s : regex) (u : string) : matches s u -> matches (Alt r s) u
| MStar0 (r : regex) : matches (Star r) EmptyString
| MStarS (r : regex) (u v : string) :
    matches r u -> matches (Star r) v -> matches (Star r) (u ++ v)%string.

(* ================================================================== *)
(** * code_query_service.py: data *)
(* ================================================================== *)

(** An entry of the NEC table.  [subsections] is tested with [in] and
    [keywords] is read with [get('keywords', [])]. *)
Module NecSection.
Record t : Type := mk {
  title : string;
  content : string;
  subsections : option (list (string * string));
  keywords : option (list string)
}.
End NecSection.

Module Pattern.
Record t : Type := mk {
  pattern : regex;
  response_template : string;
  primary_reference : string
}.
End Pattern.

(** The dict [_match_query_patterns] returns. *)
Module PatternMatch.
Record t : Type := mk {
  response : string;
  primary_reference : string;
  confidence : float
}.
End PatternMatch.

Module Reference.
Record t : Type := mk {
  section : string;
  title : string;
  relevance : float
}.
End Reference.

(** The dict [process_query] returns; [error] exists in its [except] arm. *)
Module Response.
Record t : Type := mk {
  response : string;
  references : list Reference.t;
  confidence : float;
  error : option string
}.
End Response.

(** The fields of [self]. *)
Record CodeQueryService : Type := {
  nec_database : list (string * NecSection.t);
  common_patterns : list Pattern.t
}.

Definition nl : string := String newline EmptyString.

(* ================================================================== *)
(** * code_query_service.py: CodeQueryService *)
(* ================================================================== *)

Definition _initialize_nec_database : list (string * NecSection.t) :=
  [ ("210.8",
     {| NecSection.title :=
          "Ground-Fault Circuit-Interrupter Protection for Personnel";
        NecSection.content :=
          "Ground-fault circuit-interrupter protection for personnel shall be provided as required in 210.8(A) through (F). The ground-fault circuit-interrupter shall be installed in a readily accessible location.";
        NecSection.subsections := Some
          [ ("210.8(A)",
             "Dwelling Units. All 125-volt, single-phase, 15- and 20-ampere receptacles installed in bathrooms, garages, outdoors, crawl spaces, basements, kitchens, and other specified locations shall have ground-fault circuit-interrupter protection for personnel.");
            ("210.8(B)",
             "Other Than Dwelling Units. All 125-volt, single-phase, 15-, 20-, and 30-ampere receptacles installed in bathrooms, kitchens, rooftops, outdoors, and other specified locations shall have ground-fault circuit-interrupter protection for personnel.") ];
        NecSection.keywords := Some
          ["gfci"; "ground fault"; "protection"; "bathroom"; "kitchen";
           "garage"; "outdoor"; "basement"] |});
    ("250.66",
     {| NecSection.title :=
          "Size of Alternating-Current Grounding Electrode Conductor";
        NecSection.content :=
          "The size of the grounding electrode conductor of a grounded or ungrounded ac system shall not be less than given in Table 250.66, except as permitted in 250.66(A) through (C).";
        NecSection.subsections := None;
        NecSection.keywords := Some
          ["grounding"; "electrode"; "conductor"; "size"; "table"] |});
    ("314.16",
     {| NecSection.title :=
          "Number of Conductors in Outlet, Device, and Junction Boxes, and Conduit Bodies";
        NecSection.content :=
          "Boxes and conduit bodies shall be of sufficient size to provide free space for all enclosed conductors. In no case shall the volume of the box, as calculated in 314.16(A), be less than the fill calculation as calculated in 314.16(B).";
        NecSection.subsections := None;
        NecSection.keywords := Some
          ["box fill"; "conductors"; "junction box"; "outlet box"; "volume";
           "calculation"] |});
    ("240.21",
     {| NecSection.title := "Location in Circuit";
        NecSection.content :=
          "Overcurrent protection shall be provided in each ungrounded conductor and shall be located at the point where the conductor to be protected receives its supply except as specified in 240.21(A) through (H).";
        NecSection.subsections := None;
        NecSection.keywords := Some
          ["overcurrent"; "protection"; "breaker"; "fuse"; "conductor"] |});
    ("110.26",
     {| NecSection.title := "Spaces About Electrical Equipment";
        NecSection.content :=
          "Sufficient access and working space shall be provided and maintained about all electrical equipment to permit ready and safe operation and maintenance of such equipment.";
        NecSection.subsections := None;
        NecSection.keywords := Some
          ["clearance"; "working space"; "electrical equipment"; "panel";
           "access"] |}) ].

(** [(?i).*gfci.*(?:required|need|install).*] *)
Definition gfci_pattern : regex :=
  two_groups ["gfci"] ["required"; "need"; "install"].

(** [(?i).*(?:grounding|ground).*(?:size|conductor|wire).*] *)
Definition grounding_pattern : regex :=
  two_groups ["grounding"; "ground"] ["size"; "conductor"; "wire"].

(** [(?i).*(?:box fill|junction box|outlet box).*(?:calculation|size|conductors).*] *)
Definition box_fill_pattern : regex :=
  two_groups ["box fill"; "junction box"; "outlet box"]
             ["calculation"; "size"; "conductors"].

(** [(?i).*(?:clearance|working space|panel).*(?:distance|feet|inches).*] *)
Definition clearance_pattern : regex :=
  two_groups ["clearance"; "working space"; "panel"]
             ["distance"; "feet"; "inches"].

(** The response template of the first pattern. *)
Definition gfci_response_template : string :=
  "GFCI protection is required in specific locations per NEC 210.8. For dwelling units, GFCI protection is required for 125-volt, 15- and 20-ampere receptacles in: bathrooms, garages, outdoors, crawl spaces, unfinished basements, kitchens (countertop receptacles), laundry areas, utility rooms, and within 6 feet of sinks.".

Definition _initialize_query_patterns : list Pattern.t :=
  [ {| Pattern.pattern := gfci_pattern;
       Pattern.response_template := gfci_response_template;
       Pattern.primary_reference := "210.8" |};
    {| Pattern.pattern := grounding_pattern;
       Pattern.response_template :=
         "The size of the grounding electrode conductor is determined by NEC Table 250.66, which bases the size on the largest ungrounded service-entrance conductor or equivalent area for parallel conductors.";
       Pattern.primary_reference := "250.66" |};
    {| Pattern.pattern := box_fill_pattern;
       Pattern.response_template :=
         "Box fill calculations are covered in NEC 314.16. Each conductor, device, and fitting counts toward the box fill. The total volume must not exceed the box's rated capacity. Use Table 314.16(A) for standard box volumes and Table 314.16(B) for conductor volumes.";
       Pattern.primary_reference := "314.16" |};
    {| Pattern.pattern := clearance_pattern;
       Pattern.response_template :=
         "Working space requirements are specified in NEC 110.26. Generally, a minimum of 3 feet of clear working space is required in front of electrical equipment rated 600 volts or less. The width shall be at least 30 inches or the width of the equipment, whichever is greater.";
       Pattern.primary_reference := "110.26" |} ].

(** [__init__] *)
Definition new_CodeQueryService : CodeQueryService :=
  {| nec_database := _initialize_nec_database;
     common_patterns := _initialize_query_patterns |}.

Definition stop_words : list string :=
  ["the"; "a"; "an"; "and"; "or"; "but"; "in"; "on"; "at"; "to"; "for";
   "of"; "with"; "by"; "is"; "are"; "was"; "were"; "be"; "been"; "have";
   "has"; "had"; "do"; "does"; "did"; "will"; "would"; "could"; "should";
   "may"; "might"; "must"; "can"; "what"; "when"; "where"; "why"; "how"].

(** [\w] *)
Definition is_word_char (c : ascii) : bool :=
  let n := nat_of_ascii c in
  (((48 <=? n) && (n <=? 57)) || ((65 <=? n) && (n <=? 90)) ||
   ((97 <=? n) && (n <=? 122)) || (n =? 95))%nat.

(** [re.findall(r'\b\w+\b', s)]: the maximal runs of word characters of [s],
    left to right; [current] is the run being read. *)
Fixpoint findall_words (s : string) (current : string) : list string :=
  match s with
  | EmptyString =>
      match current with
      | EmptyString => []
      | _ => [current]
      end
  | String c s' =>
      if is_word_char c then
        findall_words s' (current ++ String c EmptyString)%string
      else
        match current with
        | EmptyString => findall_words s' EmptyString
        | _ => current :: findall_words s' EmptyString
        end
  end.

Definition _extract_keywords (query : string) : list string :=
  let words := findall_words (lower query) EmptyString in
  filter (fun word => negb (list_in word stop_words) &&
                      (2 <? String.length word)%nat)
         words.

(** The body of the two nested loops of [_search_nec_sections]: [score] is
    the score so far. *)
Definition score_pair (score : nat) (keyword section_keyword : string) : nat :=
  if str_in keyword section_keyword || str_in section_keyword keyword then
    score + 1
  else if (keyword =? section_keyword)%string then
    score + 2
  else score.

Definition score_section (keywords section_keywords : list string) : nat :=
  fold_left
    (fun score keyword =>
       fold_left (fun score section_keyword =>
                    score_pair score keyword section_keyword)
                 section_keywords score)
    keywords 0.

(** One iteration of [for section_id, section_data in ...items()]. *)
Definition search_section (keywords : list string)
    (matches : list (string * float)) (item : string * NecSection.t)
  : list (string * float) :=
  let section_id := fst item in
  let section_keywords := get_default (NecSection.keywords (snd item)) [] in
  let score := score_section keywords section_keywords in
  if (0 <? score)%nat then
    let normalized_score :=
      truediv score (length keywords + length section_keywords) in
    matches ++ [(section_id, normalized_score)]
  else matches.

(** [matches.sort(key=lambda x: x[1], reverse=True)]: a stable sort, larger
    scores first; equal scores keep their order. *)
Fixpoint insert_match (x : string * float) (l : list (string * float))
  : list (string * float) :=
  match l with
  | [] => [x]
  | y :: l' =>
      if (snd x <? snd y)%float then y :: insert_match x l' else x :: l
  end.

Fixpoint sort_matches (l : list (string * float)) : list (string * float) :=
  match l with
  | [] => []
  | x :: l' => insert_match x (sort_matches l')
  end.

Definition _search_nec_sections (self : CodeQueryService)
    (keywords : list string) : list (string * float) :=
  let matches := fold_left (search_section keywords) (nec_database self) [] in
  firstn 3 (sort_matches matches).

(** The [for] loop of [_match_query_patterns] with its early [return]. *)
Fixpoint match_patterns (patterns : list Pattern.t) (query : string)
  : option PatternMatch.t :=
  match patterns with
  | [] => None
  | pattern_data :: patterns' =>
      if re_match (Pattern.pattern pattern_data) query then
        Some {| PatternMatch.response :=
                  Pattern.response_template pattern_data;
                PatternMatch.primary_reference :=
                  Pattern.primary_reference pattern_data;
                PatternMatch.confidence := 0.85 |}
      else match_patterns patterns' query
  end.

Definition _match_query_patterns (self : CodeQueryService) (query : string)
  : option PatternMatch.t :=
  match_patterns (common_patterns self) query.

(** [d[k]]: raises [KeyError(k)], whose [str] is [repr(k)]. *)
Definition dict_item {V : Type} (d : list (string * V)) (k : string) : Exc V :=
  match dict_get d k with
  | Some v => Return v
  | None => Raise (py_repr k)
  end.

(** [''.join(parts)] *)
Definition join (parts : list string) : string :=
  fold_right String.append EmptyString parts.

Definition not_found_response : Response.t :=
  {| Response.response :=
       "I couldn't find specific information about your query in my current database. Please refer to the official NEC code book or consult with a licensed electrician for detailed guidance.";
     Response.references := [];
     Response.confidence := 0.1;
     Response.error := None |}.

(** One iteration of the loop over the subsections of the primary section:
    the state is [(response_parts, references)]. *)
Definition add_subsection (primary_title : string) (primary_relevance : float)
    (st : list string * list Reference.t) (item : string * string)
  : list string * list Reference.t :=
  let subsection_id := fst item in
  let subsection_content := snd item in
  (fst st ++ [(nl ++ nl ++ subsection_id ++ ": " ++ subsection_content)%string],
   snd st ++
     [ {| Reference.section := subsection_id;
          Reference.title := (primary_title ++ " - Subsection")%string;
          Reference.relevance := (primary_relevance * 0.9)%float |} ]).

(** The loop over [relevant_sections[1:]]. *)
Fixpoint add_related (self : CodeQueryService) (rest : list (string * float))
    (st : list string * list Reference.t)
  : Exc (list string * list Reference.t) :=
  match rest with
  | [] => Return st
  | (section_id, score) :: rest' =>
      section_data <- dict_item (nec_database self) section_id ;;
      add_related self rest'
        (fst st ++
           [(nl ++ nl ++ "Also see NEC " ++ section_id ++ " (" ++
             NecSection.title section_data ++
             ") for related requirements.")%string],
         snd st ++
           [ {| Reference.section := section_id;
                Reference.title := NecSection.title section_data;
                Reference.relevance := score |} ])
  end.

Definition _generate_response (self : CodeQueryService) (query : string)
    (relevant_sections : list (string * float)) : Exc Response.t :=
  match relevant_sections with
  | [] => Return not_found_response
  | (primary_section, primary_relevance) :: rest =>
      primary_data <- dict_item (nec_database self) primary_section ;;
      let st0 :=
        ([("According to NEC " ++ primary_section ++ " (" ++
           NecSection.title primary_data ++ "): " ++
           NecSection.content primary_data)%string],
         [ {| Reference.section := primary_section;
              Reference.title := NecSection.title primary_data;
              Reference.relevance := primary_relevance |} ]) in
      let st1 :=
        match NecSection.subsections primary_data with
        | Some subsections =>
            fold_left
              (add_subsection (NecSection.title primary_data)
                              primary_relevance)
              subsections st0
        | None => st0
        end in
      st2 <- add_related self rest st1 ;;
      Return {| Response.response := join (fst st2);
                Response.references := snd st2;
                Response.confidence :=
                  py_min (primary_relevance * 1.2)%float 0.95%float;
                Response.error := None |}
  end.

(** [any(keyword in text for keyword in keywords)] *)
Definition any_in (keywords : list string) (text : string) : bool :=
  existsb (fun keyword => str_in keyword text) keywords.

Definition practical_tip : string :=
  (nl ++ nl ++ "💡 Practical Tip: Always verify local code requirements as they may be more restrictive than the NEC. Consider consulting with a licensed electrician for complex installations.")%string.

Definition safety_note : string :=
  (nl ++ nl ++ "⚠️ Safety Note: GFCI devices should be tested monthly using the TEST and RESET buttons to ensure proper operation.")%string.

Definition sizing_note : string :=
  (nl ++ nl ++ "📏 Sizing Note: Always consider voltage drop calculations for long wire runs and ensure proper derating for multiple conductors in conduit.")%string.

Definition _enhance_response_with_context (response_data : Response.t)
    (query : string) : Response.t :=
  let enhanced_response := Response.response response_data in
  let enhanced_response :=
    if any_in ["install"; "installation"; "how to"] (lower query)
    then (enhanced_response ++ practical_tip)%string
    else enhanced_response in
  let enhanced_response :=
    if any_in ["gfci"; "ground fault"] (lower query)
    then (enhanced_response ++ safety_note)%string
    else enhanced_response in
  let enhanced_response :=
    if any_in ["wire size"; "conductor size"; "ampacity"] (lower query)
    then (enhanced_response ++ sizing_note)%string
    else enhanced_response in
  {| Response.response := enhanced_response;
     Response.references := Response.references response_data;
     Response.confidence := Response.confidence response_data;
     Response.error := Response.error response_data |}.

Definition need_more_response : Response.t :=
  {| Response.response :=
       "I need more specific information to help you. Please ask about specific electrical components, installations, or code requirements.";
     Response.references := [];
     Response.confidence := 0.1;
     Response.error := None |}.

(** The dict of the [except] arm of [process_query]. *)
Definition query_error (e : string) : Response.t :=
  {| Response.response :=
       ("I encountered an error processing your query: " ++ e ++
        ". Please try rephrasing your question or refer to the official NEC code book.")%string;
     Response.references := [];
     Response.confidence := 0.0;
     Response.error := Some e |}.

(** The [try] body of [process_query]. *)
Definition process_query_body (self : CodeQueryService) (query : string)
  : Exc Response.t :=
  match _match_query_patterns self query with
  | Some pattern_match =>
      let section_data :=
        dict_get (nec_database self)
                 (PatternMatch.primary_reference pattern_match) in
      Return
        (_enhance_response_with_context
           {| Response.response := PatternMatch.response pattern_match;
              Response.references :=
                [ {| Reference.section :=
                       PatternMatch.primary_reference pattern_match;
                     Reference.title :=
                       match section_data with
                       | Some data => NecSection.title data
                       | None => "NEC Section"
                       end;
                     Reference.relevance :=
                       PatternMatch.confidence pattern_match |} ];
              Response.confidence := PatternMatch.confidence pattern_match;
              Response.error := None |}
           query)
  | None =>
      let keywords := _extract_keywords query in
      match keywords with
      | [] => Return need_more_response
      | _ :: _ =>
          let relevant_sections := _search_nec_sections self keywords in
          response_data <- _generate_response self query relevant_sections ;;
          Return (_enhance_response_with_context response_data query)
      end
  end.

Definition process_query (self : CodeQueryService) (query : string)
  : Response.t :=
  try_except (process_query_body self query) query_error.



(** ** The specification's side of the claims that compare *)

(** The score the specification gives a pair: 2 for equal strings, 1 when
    one is a substring of the other, 0 otherwise. *)
Definition spec_pair_score (token keyword : string) : nat :=
  if (token =? keyword)%string then 2
  else if str_in token keyword || str_in keyword token then 1
  else 0.

(** What one call of [score_pair] adds to the score. *)
Definition code_pair_score (keyword section_keyword : string) : nat :=
  if str_in keyword section_keyword || str_in section_keyword keyword
  then 1 else 0.

(** The sum of [f] over the pairs (token, keyword). *)
Definition sum_pairs (f : string -> string -> nat)
    (tokens keywords : list string) : nat :=
  list_sum (map (fun token => list_sum (map (f token) keywords)) tokens).

Definition spec_score (tokens keywords : list string) : float :=
  truediv (sum_pairs spec_pair_score tokens keywords)
          (length tokens + length keywords).

(** The duration the specification gives a video: the number of frames
    divided by the reported frame rate when that is greater than zero, and 0
    otherwise. *)
Definition spec_duration (total_frames : nat) (reported_fps : float) : PyNum :=
  if (0 <? reported_fps)%float
  then PFloat (float_of_nat total_frames / reported_fps)%float
  else PInt 0.

(** The rule registry of the specification: component type, predicate,
    violation template. *)
Definition gfci_false_or_absent (component : Component.t) : bool :=
  match dict_get (Component.properties component) "gfci_protected" with
  | None => true
  | Some v => negb (truthy v)
  end.

Definition spec_rules
  : list (string * (Component.t -> bool) * (Component.t -> Violation.t)) :=
  [ ("outlet", gfci_false_or_absent, missing_gfci_violation);
    ("junction_box", fun _ => true, potential_overcrowding_violation) ].

Definition spec_apply_rules (component : Component.t) : list Violation.t :=
  flat_map
    (fun rule =>
       match rule with
       | (tag, applies, template) =>
           if (Component.type component =? tag)%string && applies component
           then [template component]
           else []
       end)
    spec_rules.

Definition spec_find_violations (components : list Component.t)
  : list Violation.t :=
  flat_map spec_apply_rules components.

(** The detections and violations the counts of the rule engine are taken
    over. *)
Definition is_outlet_without_gfci (c : Component.t) : bool :=
  (Component.type c =? "outlet")%string && gfci_false_or_absent c.

Definition is_junction_box (c : Component.t) : bool :=
  (Component.type c =? "junction_box")%string.

Definition has_type (kind : string) (v : Violation.t) : bool :=
  (Violation.type v =? kind)%string.

(** The sentence a violation is answered with. *)
Definition recommendation_matches (v : Violation.t) (r : string) : Prop :=
  (Violation.type v = "missing_gfci" -> r = gfci_recommendation) /\
  (Violation.type v = "potential_overcrowding" ->
   r = overcrowding_recommendation) /\
  (Violation.type v = "improper_grounding" -> r = grounding_recommendation) /\
  (Violation.type v <> "missing_gfci" ->
   Violation.type v <> "potential_overcrowding" ->
   Violation.type v <> "improper_grounding" ->
   r = ("Address " ++ Violation.type v ++ " - refer to " ++
        get_default (Violation.code_reference v) "NEC")%string).

(** The keys the callers read with [get] are present (the other keys are
    plain fields of the record). *)
Definition well_formed (r : Analysis.t) : Prop :=
  (exists components, Analysis.detected_components r = Some components) /\
  (exists violations, Analysis.violations_found r = Some violations) /\
  (exists result, Analysis.overall_result r = Some result).

(** ** A backend to run the services on *)

(** Frames are numbered stills; every library call succeeds; the detector
    is the mock of the source. *)
Definition mock_backend (frames : list nat) (fps : float) : Backend :=
  {| ndarray := unit;
     keras_model := unit;
     frame := nat;
     keras_sequential := Return tt;
     pil_load := fun _ => Return tt;
     model_detect := fun _ => Return mock_detected_components;
     np_mean := fun l =>
       (fold_left PrimFloat.add l 0 / float_of_nat (length l))%float;
     tf_timestamp := Return 0%float;
     pil_size := fun _ => Return (224, 224)%Z;
     cv2_frames := fun _ => frames;
     cv2_fps := fun _ => fps;
     cv2_imwrite := fun _ _ => Return tt;
     os_makedirs := fun _ => Return tt;
     os_path_dirname := fun _ => "/uploads";
     os_path_join := fun a b => (a ++ "/" ++ b)%string |}.

(** A frame analysis whose analysis dict holds [overall_result] (or lacks
    the key, for [None]). *)
Definition frame_with_result (result : option string) : FrameAnalysis.t :=
  {| FrameAnalysis.frame_number := 0;
     FrameAnalysis.timestamp := 0%float;
     FrameAnalysis.analysis :=
       {| Analysis.detected_components := Some [];
          Analysis.violations_found := Some [];
          Analysis.overall_result := result;
          Analysis.confidence_scores :=
            {| ConfidenceScores.overall_confidence := 0%float;
               ConfidenceScores.component_detection := None;
               ConfidenceScores.violation_detection := None |};
          Analysis.summary := None;
          Analysis.recommendations := [];
          Analysis.analysis_metadata := None;
          Analysis.error := None |} |}.

(** The result a frame contributes to the fold. *)
Definition frame_result (f : FrameAnalysis.t) : string :=
  get_default (Analysis.overall_result (FrameAnalysis.analysis f)) "unknown".

(* ================================================================== *)
(** * Further code: orderings used to state how verdicts and matches behave *)
(* ================================================================== *)

(** How bad a verdict is: pass (and anything else) below warning below
    fail. *)
Definition verdict_rank (result : string) : nat :=
  if (result =? "fail")%string then 2
  else if (result =? "warning")%string then 1
  else 0.

(** No match is followed by a strictly better one. *)
Fixpoint sorted_desc (l : list (string * float)) : Prop :=
  match l with
  | [] => True
  | x :: l' =>
      match l' with
      | [] => True
      | y :: _ => (snd x <? snd y)%float = false
      end /\ sorted_desc l'
  end.

(** The path [extract_key_frames] writes frame number [n] to. *)
Definition frame_file (B : Backend) (video_path : string) (n : nat) : string :=
  os_path_join B
    (os_path_join B (os_path_dirname B video_path) "temp_frames")
    ("frame_" ++ str_of_nat n ++ ".jpg")%string.

(** The frames the loop extracts: those whose index is a multiple of the
    interval. *)
Definition is_key_frame (n : nat) : bool :=
  (n mod frame_extraction_interval =? 0)%nat.

(* ================================================================== *)
(** * routes/inspection.py: upload validation *)
(* ================================================================== *)

Definition ALLOWED_IMAGE_EXTENSIONS : list string :=
  ["png"; "jpg"; "jpeg"; "gif"; "bmp"; "tiff"].

Definition ALLOWED_VIDEO_EXTENSIONS : list string :=
  ["mp4"; "avi"; "mov"; "wmv"; "flv"; "webm"].

(** The two parts of [s] around its last [sep], when there is one. *)
Fixpoint rsplit_last (sep : ascii) (s : string) : option (string * string) :=
  match s with
  | EmptyString => None
  | String c s' =>
      match rsplit_last sep s' with
      | Some (before, after) => Some (String c before, after)
      | None => if Ascii.eqb c sep then Some (EmptyString, s') else None
      end
  end.

(** [s.rsplit(sep, 1)] for a one-character separator. *)
Definition rsplit1 (sep : ascii) (s : string) : list string :=
  match rsplit_last sep s with
  | Some (before, after) => [before; after]
  | None => [s]
  end.

(** [l[i]]: raises [IndexError] past the end. *)
Definition list_item {A : Type} (l : list A) (i : nat) : Exc A :=
  match nth_error l i with
  | Some x => Return x
  | None => Raise "list index out of range"
  end.

Definition dot : ascii := ascii_of_nat 46.

(** ['.' in filename and filename.rsplit('.', 1)[1].lower() in
    allowed_extensions] *)
Definition allowed_file (filename : string) (allowed_extensions : list string)
  : Exc bool :=
  if str_in (String dot EmptyString) filename then
    extension <- list_item (rsplit1 dot filename) 1 ;;
    Return (list_in (lower extension) allowed_extensions)
  else Return false.

(* ================================================================== *)
(** * models/user.py: the upload quota *)
(* ================================================================== *)

Inductive SubscriptionTier : Type :=
| FREEMIUM
| BASIC
| PROFESSIONAL
| ENTERPRISE.

Definition tier_eqb (a b : SubscriptionTier) : bool :=
  match a, b with
  | FREEMIUM, FREEMIUM => true
  | BASIC, BASIC => true
  | PROFESSIONAL, PROFESSIONAL => true
  | ENTERPRISE, ENTERPRISE => true
  | _, _ => false
  end.

(** A [datetime]. *)
Module Datetime.
Record t : Type := mk {
  year : Z;
  month : Z;
  day : Z;
  hour : Z;
  minute : Z;
  second : Z;
  microsecond : Z
}.
End Datetime.

(** The columns of [User]. *)
Module User.
Record t : Type := mk {
  id : Z;
  username : string;
  email : string;
  password_hash : string;
  subscription_tier : SubscriptionTier;
  created_at : Datetime.t;
  last_login : option Datetime.t;
  is_active : bool;
  monthly_uploads : Z;
  last_reset_date : Datetime.t
}.
End User.

(** [self.monthly_uploads = n; self.last_reset_date = d] *)
Definition set_usage (self : User.t) (n : Z) (d : Datetime.t) : User.t :=
  {| User.id := User.id self;
     User.username := User.username self;
     User.email := User.email self;
     User.password_hash := User.password_hash self;
     User.subscription_tier := User.subscription_tier self;
     User.created_at := User.created_at self;
     User.last_login := User.last_login self;
     User.is_active := User.is_active self;
     User.monthly_uploads := n;
     User.last_reset_date := d |}.

(** [can_upload]: [now] is [datetime.utcnow()]; the result is the returned
    truth value and the row after the call. *)
Definition can_upload (self : User.t) (now : Datetime.t) : bool * User.t :=
  if negb (tier_eqb (User.subscription_tier self) FREEMIUM) then (true, self)
  else
    let self' :=
      if negb (Datetime.month (User.last_reset_date self) =?
               Datetime.month now)%Z ||
         negb (Datetime.year (User.last_reset_date self) =?
               Datetime.year now)%Z
      then set_usage self 0 now
      else self in
    ((User.monthly_uploads self' <? 3)%Z, self').

Definition increment_upload_count (self : User.t) : User.t :=
  set_usage self (User.monthly_uploads self + 1) (User.last_reset_date self).

(** What [upload_image] does to the user's row: it asks [can_upload],
    returns early when the answer is no or when the request fails one of
    its checks ([proceeds] is false), and otherwise increments the count.
    The result tells whether the upload went through. *)
Definition upload_image_usage (now : Datetime.t) (proceeds : bool)
    (user : User.t) : bool * User.t :=
  let (allowed, user') := can_upload user now in
  if allowed && proceeds then (true, increment_upload_count user')
  else (false, user').

(** A run of upload requests on one user: how many went through, and the
    row at the end. *)
Fixpoint upload_requests (requests : list (Datetime.t * bool))
    (user : User.t) : nat * User.t :=
  match requests with
  | [] => (0, user)
  | (now, proceeds) :: requests' =>
      let (done, user') := upload_image_usage now proceeds user in
      let (count, user'') := upload_requests requests' user' in
      ((if done then 1 else 0) + count, user'')
  end.

(** The upload quota left to a freemium row in the month of [now]. *)
Definition quota_left (now : Datetime.t) (user : User.t) : Z :=
  if (Datetime.month (User.last_reset_date user) =? Datetime.month now)%Z &&
     (Datetime.year (User.last_reset_date user) =? Datetime.year now)%Z
  then Z.max 0 (3 - User.monthly_uploads user)
  else 3.

(** Two instants of the same calendar month. *)
Definition same_month (a b : Datetime.t) : Prop :=
  Datetime.month a = Datetime.month b /\ Datetime.year a = Datetime.year b.

(** A backend like [mock_backend] whose image loader and detector are
    given. *)
Definition backend_with (load : string -> Exc unit)
    (detect : Exc (list Component.t)) (frames : list nat) (fps : float)
  : Backend :=
  {| ndarray := unit;
     keras_model := unit;
     frame := nat;
     keras_sequential := Return tt;
     pil_load := load;
     model_detect := fun _ => detect;
     np_mean := fun l =>
       (fold_left PrimFloat.add l 0 / float_of_nat (length l))%float;
     tf_timestamp := Return 0%float;
     pil_size := fun _ => Return (224, 224)%Z;
     cv2_frames := fun _ => frames;
     cv2_fps := fun _ => fps;
     cv2_imwrite := fun _ _ => Return tt;
     os_makedirs := fun _ => Return tt;
     os_path_dirname := fun _ => "/uploads";
     os_path_join := fun a b => (a ++ "/" ++ b)%string |}.

(** What a frame analysis adds to the totals of [analyze_video]. *)
Definition frame_components (f : FrameAnalysis.t) : list Component.t :=
  get_default (Analysis.detected_components (FrameAnalysis.analysis f)) [].

Definition frame_violations (f : FrameAnalysis.t) : list Violation.t :=
  get_default (Analysis.violations_found (FrameAnalysis.analysis f)) [].

(** Every character of [s] satisfies [p]. *)
Fixpoint all_chars (p : ascii -> bool) (s : string) : bool :=
  match s with
  | EmptyString => true
  | String c s' => p c && all_chars p s'
  end.

(** A text of ASCII characters: on these the byte strings, [lower],
    the word characters and the patterns of this file are those of
    Python. *)
Definition is_ascii_char (c : ascii) : bool := (nat_of_ascii c <? 128)%nat.

Definition is_ascii (s : string) : Prop := all_chars is_ascii_char s = true.

(** A printable ASCII character that [repr] writes as it is inside
    apostrophes. *)
Definition is_plain_char (c : ascii) : bool :=
  let n := nat_of_ascii c in
  ((32 <=? n) && (n <? 127) && negb (n =? 39) && negb (n =? 92))%nat.

(** A character [lower] leaves as it is. *)
Definition not_upper (c : ascii) : bool := negb (is_upper c).

(** The matches of one exact score, in order. *)
Definition with_score (t : float) (l : list (string * float))
  : list (string * float) :=
  filter (fun m => PrimFloat.Leibniz.eqb (snd m) t) l.

(** A character other than the dot. *)
Definition not_dot (c : ascii) : bool := negb (Ascii.eqb c dot).

(** A character other than the newline, and a text within one line. *)
Definition not_newline (c : ascii) : bool := negb (Ascii.eqb c newline).

Definition one_line (s : string) : Prop := all_chars not_newline s = true.

(** The two word groups of each of the four patterns, in list order. *)
Definition fast_path_groups : list (list string * list string) :=
  [ (["gfci"], ["required"; "need"; "install"]);
    (["grounding"; "ground"], ["size"; "conductor"; "wire"]);
    (["box fill"; "junction box"; "outlet box"],
     ["calculation"; "size"; "conductors"]);
    (["clearance"; "working space"; "panel"],
     ["distance"; "feet"; "inches"]) ].

(** [u] is one of the words [ws] up to letter case. *)
Definition word_of (ws : list string) (u : string) : Prop :=
  exists w, In w ws /\ lower u = lower w.

(* ================================================================== *)
(** * Properties *)
(* ================================================================== *)

(** ** Strings and floats *)

Lemma prefix_refl (s : string) : is_prefix s s = true.
Proof.
  induction s as [|c s IH]; simpl; [reflexivity|].
  now rewrite Ascii.eqb_refl.
Qed.

Lemma prefix_app (x s : string) :
  is_prefix x s = true <-> exists b, s = (x ++ b)%string.
Proof.
  revert s. induction x as [|c x IH]; intros s; simpl.
  - split; [intros _; now exists s | intros _; reflexivity].
  - destruct s as [|d s]; simpl.
    + split; [discriminate | intros [b Hb]; discriminate].
    + destruct (Ascii.eqb_spec c d) as [->|n]; simpl.
      * rewrite IH. split; intros [b Hb]; exists b; congruence.
      * split; [discriminate | intros [b Hb]; congruence].
Qed.

(** [str_in] is Python's [in]: [x] occurs somewhere in [s]. *)
Lemma str_in_spec (x s : string) :
  str_in x s = true <-> exists a b, s = (a ++ x ++ b)%string.
Proof.
  induction s as [|c s IH].
  - simpl. rewrite orb_false_r, prefix_app. split.
    + intros [b Hb]. now exists EmptyString, b.
    + intros [a [b Hab]]. destruct a; simpl in Hab; [now exists b|discriminate].
  - cbn [str_in]. rewrite orb_true_iff, IH, prefix_app. split.
    + intros [[b Hb]|[a [b Hab]]].
      * now exists EmptyString, b.
      * exists (String c a), b. simpl. now rewrite Hab.
    + intros [a [b Hab]]. destruct a as [|d a]; simpl in Hab.
      * left. now exists b.
      * right. exists a, b. congruence.
Qed.

Lemma str_in_refl (s : string) : str_in s s = true.
Proof. destruct s; cbn [str_in]; now rewrite prefix_refl. Qed.

(** Two floats that [PrimFloat.eqb] tells apart are different. *)
Lemma float_neq (x y : float) :
  PrimFloat.eqb x y = false -> PrimFloat.eqb x x = true -> x <> y.
Proof. intros Hxy Hxx E. rewrite <- E in Hxy. congruence. Qed.

(** ** The retrieval score *)

(** On equal strings the first test of [score_pair] succeeds: the branch
    that adds 2 is never reached. *)
Lemma score_pair_equal (score : nat) (k : string) :
  score_pair score k k = score + 1.
Proof. unfold score_pair. now rewrite str_in_refl. Qed.

Lemma score_pair_code (score : nat) (k sk : string) :
  score_pair score k sk = score + code_pair_score k sk.
Proof.
  unfold score_pair, code_pair_score.
  destruct (str_in k sk || str_in sk k) eqn:E; [reflexivity|].
  destruct (String.eqb_spec k sk) as [->|_]; [|lia].
  rewrite str_in_refl in E. discriminate.
Qed.

Lemma score_inner (k : string) (sks : list string) (score : nat) :
  fold_left (fun score sk => score_pair score k sk) sks score =
  score + list_sum (map (code_pair_score k) sks).
Proof.
  revert score. induction sks as [|sk sks IH]; intros score; simpl; [lia|].
  rewrite IH, score_pair_code. lia.
Qed.

Lemma score_outer (ks sks : list string) (score : nat) :
  fold_left
    (fun score k => fold_left (fun score sk => score_pair score k sk) sks score)
    ks score =
  score + sum_pairs code_pair_score ks sks.
Proof.
  revert score. unfold sum_pairs.
  induction ks as [|k ks IH]; intros score; simpl; [lia|].
  rewrite IH, score_inner. lia.
Qed.

(** The two scores of a pair differ on equal strings, and only there. *)
Lemma spec_pair_score_code (k sk : string) :
  spec_pair_score k sk =
  code_pair_score k sk + (if (k =? sk)%string then 1 else 0).
Proof.
  unfold spec_pair_score, code_pair_score.
  destruct (String.eqb_spec k sk) as [->|_].
  - now rewrite str_in_refl.
  - destruct (str_in k sk || str_in sk k); reflexivity.
Qed.

(** The score the code computes: every pair in which one string occurs in
    the other counts 1, equal strings included. *)
Lemma score_section_sum (ks sks : list string) :
  score_section ks sks = sum_pairs code_pair_score ks sks.
Proof. unfold score_section. now rewrite score_outer. Qed.

(** A positive score never divides by zero. *)
Lemma score_section_denominator (ks sks : list string) :
  0 < score_section ks sks -> 0 < length ks + length sks.
Proof.
  rewrite score_section_sum. destruct ks; simpl; [|lia].
  unfold sum_pairs. simpl. lia.
Qed.

(** C1 (the code departs from the claim).  For the token list ["gfci"]
    and the entry 210.8, whose eight keywords contain "gfci", the
    specification scores the equal pair 2 and the entry 2/9; the code scores
    the pair 1, because the substring test comes first, and the entry 1/9.
    The query "gfci" reaches that input through [process_query]. *)
Theorem search_scores_equal_pair_as_substring :
  _search_nec_sections new_CodeQueryService ["gfci"] =
    [("210.8", truediv 1 9)] /\
  spec_score ["gfci"]
    ["gfci"; "ground fault"; "protection"; "bathroom"; "kitchen"; "garage";
     "outdoor"; "basement"] = truediv 2 9 /\
  truediv 1 9 <> truediv 2 9 /\
  _extract_keywords "gfci" = ["gfci"] /\
  hd_error (Response.references (process_query new_CodeQueryService "gfci")) =
    Some {| Reference.section := "210.8";
            Reference.title :=
              "Ground-Fault Circuit-Interrupter Protection for Personnel";
            Reference.relevance := truediv 1 9 |}.
Proof.
  split; [vm_compute; reflexivity|].
  split; [vm_compute; reflexivity|].
  split; [apply float_neq; vm_compute; reflexivity|].
  split; vm_compute; reflexivity.
Qed.

(** ** The assessment ladder *)

Lemma severity_count (s : string) (violations : list Violation.t) :
  length (filter (fun v => (Violation.severity v =? s)%string) violations) =
  count_occ string_dec (map Violation.severity violations) s.
Proof.
  induction violations as [|v vs IH]; simpl; [reflexivity|].
  destruct (String.eqb_spec (Violation.severity v) s) as [E|E];
    destruct (string_dec (Violation.severity v) s) as [E'|E'];
    try contradiction; simpl; now rewrite IH.
Qed.

Lemma exists_high_count (violations : list Violation.t) :
  Exists (fun v => Violation.severity v = "high") violations <->
  0 < count_occ string_dec (map Violation.severity violations) "high".
Proof.
  rewrite Exists_exists. split.
  - intros [v [Hin Hv]]. apply (proj1 (count_occ_In string_dec _ _)).
    apply in_map_iff. now exists v.
  - intros H. apply (proj2 (count_occ_In string_dec _ _)) in H.
    apply in_map_iff in H. destruct H as [v [Hv Hin]]. now exists v.
Qed.

(** C2.  The verdict of [calculate_overall_assessment] follows the ladder:
    fail with confidence 0.85 when some violation has severity high;
    otherwise warning with confidence 0.70 when more than 2 violations have
    severity medium; otherwise pass with confidence 0.90.  It depends on the
    two severity counts only: two calls whose violation lists have the same
    number of high and of medium violations give the same result and
    confidence, whatever the detections. *)
Theorem assessment_ladder :
  forall (components : list Component.t) (violations : list Violation.t),
    let a := calculate_overall_assessment components violations in
    let high := count_occ string_dec (map Violation.severity violations) "high" in
    let medium :=
      count_occ string_dec (map Violation.severity violations) "medium" in
    (Exists (fun v => Violation.severity v = "high") violations ->
       Assessment.overall_result a = "fail" /\
       Assessment.confidence a = 0.85%float) /\
    (~ Exists (fun v => Violation.severity v = "high") violations ->
     2 < medium ->
       Assessment.overall_result a = "warning" /\
       Assessment.confidence a = 0.70%float) /\
    (~ Exists (fun v => Violation.severity v = "high") violations ->
     medium <= 2 ->
       Assessment.overall_result a = "pass" /\
       Assessment.confidence a = 0.90%float) /\
    (forall (components' : list Component.t) (violations' : list Violation.t),
       count_occ string_dec (map Violation.severity violations') "high" = high ->
       count_occ string_dec (map Violation.severity violations') "medium" =
         medium ->
       let a' := calculate_overall_assessment components' violations' in
       Assessment.overall_result a' = Assessment.overall_result a /\
       Assessment.confidence a' = Assessment.confidence a).
Proof.
  intros components violations a high medium.
  assert (E : forall cs vs,
            count_occ string_dec (map Violation.severity vs) "high" = high ->
            count_occ string_dec (map Violation.severity vs) "medium" =
              medium ->
            Assessment.overall_result (calculate_overall_assessment cs vs) =
              fst (if (0 <? high)%nat then ("fail", 0.85%float)
                   else if (2 <? medium)%nat then ("warning", 0.70%float)
                   else ("pass", 0.90%float)) /\
            Assessment.confidence (calculate_overall_assessment cs vs) =
              snd (if (0 <? high)%nat then ("fail", 0.85%float)
                   else if (2 <? medium)%nat then ("warning", 0.70%float)
                   else ("pass", 0.90%float))).
  { intros cs vs Hh Hm. unfold calculate_overall_assessment.
    cbn [Assessment.overall_result Assessment.confidence].
    rewrite !severity_count, Hh, Hm. split; reflexivity. }
  destruct (E components violations eq_refl eq_refl) as [Er Ec].
  fold a in Er, Ec. rewrite exists_high_count. fold high.
  split; [|split; [|split]].
  - intros Hh. rewrite Er, Ec.
    destruct (Nat.ltb_spec 0 high); [split; reflexivity | lia].
  - intros Hh Hm. rewrite Er, Ec.
    destruct (Nat.ltb_spec 0 high); [lia|].
    destruct (Nat.ltb_spec 2 medium); [split; reflexivity | lia].
  - intros Hh Hm. rewrite Er, Ec.
    destruct (Nat.ltb_spec 0 high); [lia|].
    destruct (Nat.ltb_spec 2 medium); [lia | split; reflexivity].
  - intros components' violations' Hh Hm a'.
    destruct (E components' violations' Hh Hm) as [Er' Ec'].
    fold a' in Er', Ec'. now rewrite Er, Ec, Er', Ec'.
Qed.

(** ** The video fold *)

Lemma list_in_In (x : string) (l : list string) :
  list_in x l = true <-> In x l.
Proof.
  induction l as [|y l IH]; simpl; [split; [discriminate | tauto]|].
  rewrite orb_true_iff, IH, String.eqb_eq. split; intros [H|H]; auto.
Qed.

Lemma list_in_not_In (x : string) (l : list string) :
  list_in x l = false <-> ~ In x l.
Proof. rewrite <- list_in_In. destruct (list_in x l); split; congruence. Qed.

Lemma all_pass_Forall (l : list string) :
  forallb (fun result => (result =? "pass")%string) l = true <->
  Forall (fun result => result = "pass") l.
Proof.
  rewrite forallb_forall, Forall_forall.
  split; intros H x Hx; apply String.eqb_eq; auto.
Qed.

(** C3.  On a non-empty list of frame analyses the video result is fail
    when some frame is fail; otherwise warning when some frame is warning;
    otherwise pass when every frame is pass; otherwise warning.  The four
    lists of the specification fold to fail, warning, pass and warning. *)
Theorem video_assessment_fold :
  (forall frame_analyses : list FrameAnalysis.t,
     frame_analyses <> [] ->
     let results := map frame_result frame_analyses in
     let overall := _calculate_video_assessment frame_analyses in
     (In "fail" results -> overall = "fail") /\
     (~ In "fail" results -> In "warning" results -> overall = "warning") /\
     (~ In "fail" results -> ~ In "warning" results ->
      Forall (fun result => result = "pass") results -> overall = "pass") /\
     (~ In "fail" results -> ~ In "warning" results ->
      ~ Forall (fun result => result = "pass") results ->
      overall = "warning")) /\
  _calculate_video_assessment
    (map frame_with_result [Some "pass"; Some "pass"; Some "fail"]) = "fail" /\
  _calculate_video_assessment
    (map frame_with_result [Some "pass"; Some "warning"]) = "warning" /\
  _calculate_video_assessment
    (map frame_with_result [Some "pass"; Some "pass"; Some "pass"]) = "pass" /\
  _calculate_video_assessment
    (map frame_with_result [Some "unknown"; Some "pass"]) = "warning" /\
  _calculate_video_assessment
    (map frame_with_result [None; Some "pass"]) = "warning".
Proof.
  split; [|repeat split; reflexivity].
  intros frame_analyses Hne results overall.
  assert (E : overall =
              if list_in "fail" results then "fail"
              else if list_in "warning" results then "warning"
              else if forallb (fun result => (result =? "pass")%string) results
                   then "pass" else "warning").
  { subst overall results. destruct frame_analyses; [contradiction|reflexivity]. }
  rewrite E. clear E.
  repeat split.
  - intros H. apply list_in_In in H. now rewrite H.
  - intros Hf Hw. apply list_in_not_In in Hf. apply list_in_In in Hw.
    now rewrite Hf, Hw.
  - intros Hf Hw Hp. apply list_in_not_In in Hf, Hw.
    apply all_pass_Forall in Hp. now rewrite Hf, Hw, Hp.
  - intros Hf Hw Hp. apply list_in_not_In in Hf, Hw. rewrite Hf, Hw.
    destruct (forallb _ results) eqn:F; [|reflexivity].
    apply all_pass_Forall in F. contradiction.
Qed.

(** ** The violation rule engine *)

Lemma gfci_test (component : Component.t) :
  negb (truthy (get_default
                  (dict_get (Component.properties component) "gfci_protected")
                  (VBool false))) =
  gfci_false_or_absent component.
Proof.
  unfold gfci_false_or_absent.
  now destruct (dict_get (Component.properties component) "gfci_protected").
Qed.

(** One turn of the loop appends what the registry gives for the
    component. *)
Lemma check_component_rules (violations : list Violation.t)
    (component : Component.t) :
  check_component violations component =
  violations ++ spec_apply_rules component.
Proof.
  unfold check_component, spec_apply_rules, spec_rules. cbn [flat_map].
  rewrite gfci_test, app_nil_r, andb_true_r.
  destruct (String.eqb_spec (Component.type component) "outlet") as [E|E].
  - rewrite E. cbn [String.eqb Ascii.eqb Bool.eqb]. cbn [andb].
    rewrite app_nil_r.
    destruct (gfci_false_or_absent component); [reflexivity|].
    now rewrite app_nil_r.
  - cbn [andb app].
    destruct (Component.type component =? "junction_box")%string;
      [reflexivity | now rewrite app_nil_r].
Qed.

Lemma check_loop_rules (components : list Component.t)
    (violations : list Violation.t) :
  fold_left check_component components violations =
  violations ++ spec_find_violations components.
Proof.
  revert violations.
  induction components as [|c cs IH]; intros violations; simpl.
  - now rewrite app_nil_r.
  - now rewrite IH, check_component_rules, app_assoc.
Qed.

Lemma spec_apply_rules_cases (c : Component.t) :
  spec_apply_rules c =
  if is_outlet_without_gfci c then [missing_gfci_violation c]
  else if is_junction_box c then [potential_overcrowding_violation c]
  else [].
Proof.
  unfold spec_apply_rules, spec_rules, is_outlet_without_gfci, is_junction_box.
  cbn [flat_map]. rewrite app_nil_r, andb_true_r.
  destruct (String.eqb_spec (Component.type c) "outlet") as [E|E].
  - rewrite E. cbn [String.eqb Ascii.eqb Bool.eqb andb].
    rewrite app_nil_r. now destruct (gfci_false_or_absent c).
  - reflexivity.
Qed.

(** C4.  [check_code_violations] returns, in the order of the detections,
    what the rule registry of the specification gives: one missing_gfci
    violation of severity high for each outlet whose gfci_protected property
    is false or absent, one potential_overcrowding violation of severity
    medium for each junction_box, and nothing for any other detection.  So
    the missing_gfci violations are as many as those outlets, the
    potential_overcrowding violations as many as the junction boxes, and
    there is no other violation. *)
Theorem check_code_violations_rules :
  forall (components : list Component.t) (image_path : string),
    let violations := check_code_violations components image_path in
    violations = spec_find_violations components /\
    length (filter (has_type "missing_gfci") violations) =
      length (filter is_outlet_without_gfci components) /\
    length (filter (has_type "potential_overcrowding") violations) =
      length (filter is_junction_box components) /\
    length violations =
      length (filter is_outlet_without_gfci components) +
      length (filter is_junction_box components) /\
    Forall (fun v => Violation.type v = "missing_gfci" ->
                     Violation.severity v = "high") violations /\
    Forall (fun v => Violation.type v = "potential_overcrowding" ->
                     Violation.severity v = "medium") violations.
Proof.
  intros components image_path violations.
  assert (E : violations = spec_find_violations components).
  { subst violations. unfold check_code_violations.
    now rewrite check_loop_rules. }
  rewrite E. clear E violations. split; [reflexivity|].
  unfold spec_find_violations.
  induction components as [|c cs IH]; [simpl; repeat split; constructor|].
  destruct IH as (IH1 & IH2 & IH3 & IH4 & IH5).
  cbn [flat_map filter]. rewrite !filter_app, !length_app, !Forall_app.
  rewrite IH1, IH2, IH3. rewrite spec_apply_rules_cases.
  assert (X : is_outlet_without_gfci c = true -> is_junction_box c = false).
  { unfold is_outlet_without_gfci, is_junction_box.
    destruct (String.eqb_spec (Component.type c) "outlet") as [->|];
      [reflexivity | discriminate]. }
  destruct (is_outlet_without_gfci c).
  - rewrite X by reflexivity. simpl.
    repeat split; auto; try lia; repeat constructor; discriminate.
  - destruct (is_junction_box c); simpl;
      repeat split; auto; try lia; repeat constructor; discriminate.
Qed.

(** ** Recommendations *)

Lemma recommend_matches (recommendations : list string) (v : Violation.t) :
  exists r, recommend recommendations v = recommendations ++ [r] /\
            recommendation_matches v r.
Proof.
  unfold recommend, recommendation_matches.
  destruct (String.eqb_spec (Violation.type v) "missing_gfci") as [E1|E1].
  { eexists; split; [reflexivity|]. rewrite E1.
    repeat split; intros; try discriminate; try reflexivity; contradiction. }
  destruct (String.eqb_spec (Violation.type v) "potential_overcrowding")
    as [E2|E2].
  { eexists; split; [reflexivity|]. rewrite E2.
    repeat split; intros; try discriminate; try reflexivity; contradiction. }
  destruct (String.eqb_spec (Violation.type v) "improper_grounding")
    as [E3|E3].
  { eexists; split; [reflexivity|]. rewrite E3.
    repeat split; intros; try discriminate; try reflexivity; contradiction. }
  eexists; split; [reflexivity|].
  repeat split; intros; try contradiction; reflexivity.
Qed.

Lemma recommend_loop (violations : list Violation.t)
    (recommendations : list string) :
  exists rs, fold_left recommend violations recommendations =
             recommendations ++ rs /\
             Forall2 recommendation_matches violations rs.
Proof.
  revert recommendations.
  induction violations as [|v vs IH]; intros recommendations; simpl.
  - exists []. split; [now rewrite app_nil_r | constructor].
  - destruct (recommend_matches recommendations v) as [r [Er Hr]].
    destruct (IH (recommendations ++ [r])) as [rs [Ers Hrs]].
    exists (r :: rs). rewrite Er, Ers, <- app_assoc. split; [reflexivity|].
    now constructor.
Qed.

Lemma generate_recommendations_nonempty (violations : list Violation.t) :
  _generate_recommendations violations <> [].
Proof.
  unfold _generate_recommendations.
  destruct (recommend_loop violations []) as [rs [E H]].
  rewrite E. destruct H; discriminate.
Qed.

(** C7.  The recommendation list is never empty.  For a non-empty violation
    list it holds one sentence for each violation, in order: the fixed
    sentence of missing_gfci, potential_overcrowding or improper_grounding,
    and for any other kind the sentence "Address kind - refer to reference".
    For the empty violation list it is the single sentence that the
    installation appears to meet the requirements and that a professional
    inspection should verify it. *)
Theorem recommendations_never_empty :
  forall violations : list Violation.t,
    let recommendations := _generate_recommendations violations in
    recommendations <> [] /\
    (violations = [] -> recommendations = [no_violation_recommendation]) /\
    (violations <> [] ->
     Forall2 recommendation_matches violations recommendations).
Proof.
  intros violations recommendations. subst recommendations.
  unfold _generate_recommendations.
  destruct (recommend_loop violations []) as [rs [E H]].
  rewrite E. cbn [app]. destruct violations as [|v vs].
  - inversion H; subst. repeat split; [discriminate | contradiction].
  - inversion H; subst. repeat split; [discriminate | discriminate | auto].
Qed.

(** ** [analyze_image] always returns a dict *)

Lemma analyze_image_body_ok (B : Backend) (image_path : string)
    (a : Analysis.t) :
  analyze_image_body B image_path = Return a ->
  well_formed a /\ Analysis.recommendations a <> [] /\
  Analysis.error a = None /\
  Analysis.overall_result a <> Some "error".
Proof.
  unfold analyze_image_body.
  destruct (preprocess_image B image_path) as [image_array|e];
    cbn [bind]; [|discriminate].
  destruct (tf_timestamp B) as [ts|e]; cbn [bind]; [|discriminate].
  destruct (pil_size B image_path) as [size|e]; cbn [bind]; [|discriminate].
  intros E. injection E as <-.
  unfold well_formed.
  cbn [Analysis.detected_components Analysis.violations_found
       Analysis.overall_result Analysis.recommendations Analysis.error].
  split; [repeat split; eexists; reflexivity|].
  split; [apply generate_recommendations_nonempty|].
  split; [reflexivity|].
  unfold calculate_overall_assessment. cbn [Assessment.overall_result].
  destruct (0 <? _)%nat; [discriminate|].
  destruct (2 <? _)%nat; discriminate.
Qed.

(** C10.  [analyze_image] returns a dict on every input and for every
    backend, whatever the library calls do: either the [try] body ran to its
    end and the dict is the one it built, with a non-empty recommendation
    list, or some call raised and the dict is the one of the [except] arm:
    result error, no component, no violation, overall confidence 0.0 and an
    empty recommendation list.  In both cases the keys the callers read are
    present.  An image that cannot be decoded takes the [except] arm; a
    detector that raises does not, its error is absorbed by
    [detect_components]. *)
Theorem analyze_image_total :
  forall (B : Backend) (self_model : option (keras_model B))
         (image_path : string),
    let r := fst (analyze_image B self_model image_path) in
    well_formed r /\
    ((exists a, analyze_image_body B image_path = Return a /\ r = a /\
                Analysis.recommendations r <> [] /\
                Analysis.error r = None) \/
     (exists e, analyze_image_body B image_path = Raise e /\
                Analysis.overall_result r = Some "error" /\
                Analysis.detected_components r = Some [] /\
                Analysis.violations_found r = Some [] /\
                ConfidenceScores.overall_confidence
                  (Analysis.confidence_scores r) = 0.0%float /\
                Analysis.recommendations r = [] /\
                Analysis.error r = Some e)) /\
    (forall e, pil_load B image_path = Raise e ->
               Analysis.overall_result r = Some "error" /\
               Analysis.recommendations r = []) /\
    (forall image_array e,
       model_detect B image_array = Raise e ->
       detect_components B image_array = []).
Proof.
  intros B self_model image_path r. subst r.
  unfold analyze_image. cbn [fst].
  split; [|split; [|split]].
  - destruct (analyze_image_body B image_path) as [a|e] eqn:E;
      cbn [try_except]; [now apply analyze_image_body_ok in E|].
    repeat split; eexists; reflexivity.
  - destruct (analyze_image_body B image_path) as [a|e] eqn:E;
      cbn [try_except].
    + left. exists a. apply analyze_image_body_ok in E. tauto.
    + right. exists e. repeat split.
  - intros e H. unfold analyze_image_body, preprocess_image. rewrite H.
    split; reflexivity.
  - intros image_array e H. unfold detect_components. now rewrite H.
Qed.

(** ** Frame extraction and the video assessment *)

(** A video without a readable frame yields no frame path. *)
Lemma extract_key_frames_no_frame (B : Backend) (video_path : string) :
  cv2_frames B video_path = [] ->
  fst (extract_key_frames B video_path) = [].
Proof.
  intros E. unfold extract_key_frames, extract_key_frames_body.
  destruct (os_makedirs B _); cbn [bind try_except]; [|reflexivity].
  rewrite E. reflexivity.
Qed.

(** Neither does an extraction in which a library call raises. *)
Lemma extract_key_frames_raise (B : Backend) (video_path e : string) :
  extract_key_frames_body B video_path = Raise e ->
  extract_key_frames B video_path = ([], PInt 0).
Proof. intros E. unfold extract_key_frames. now rewrite E. Qed.

(** C6.  When frame extraction yields no frame path, [analyze_video]
    returns result error, duration 0 and no frame analysis. *)
Theorem analyze_video_no_frames :
  forall (B : Backend) (self_model : option (keras_model B))
         (video_path : string),
    fst (extract_key_frames B video_path) = [] ->
    let r := fst (analyze_video B self_model video_path) in
    VideoAssessment.overall_result r = "error" /\
    VideoAssessment.duration r = PInt 0 /\
    VideoAssessment.frame_analyses r = [].
Proof.
  intros B self_model video_path H r. subst r. unfold analyze_video.
  destruct (extract_key_frames B video_path) as [frame_paths duration].
  cbn [fst] in H. subst frame_paths. repeat split.
Qed.

Lemma analyze_video_no_frames_witness :
  fst (extract_key_frames (mock_backend [] 30) "/uploads/v.mp4") = [] /\
  let r := fst (analyze_video (mock_backend [] 30) None "/uploads/v.mp4") in
  VideoAssessment.overall_result r = "error" /\
  VideoAssessment.duration r = PInt 0 /\
  VideoAssessment.frame_analyses r = [].
Proof.
  split; [reflexivity|].
  apply (analyze_video_no_frames (mock_backend [] 30) None "/uploads/v.mp4").
  reflexivity.
Defined.

(** When every write succeeds the loop counts every frame it reads. *)
Lemma read_frames_count (B : Backend) (temp_dir : string) :
  (forall path image, cv2_imwrite B path image = Return tt) ->
  forall (frames : list (frame B)) (frame_count : nat)
         (extracted_frames : list string),
  exists paths,
    read_frames B temp_dir frames frame_count extracted_frames =
    Return (paths, frame_count + length frames).
Proof.
  intros Hw frames.
  induction frames as [|image frames IH]; intros frame_count extracted_frames.
  - exists extracted_frames. simpl. now rewrite Nat.add_0_r.
  - cbn [read_frames length].
    destruct (frame_count mod frame_extraction_interval =? 0)%nat.
    + rewrite Hw. cbn [bind].
      destruct (IH (frame_count + 1) (extracted_frames ++
        [os_path_join B temp_dir
           ("frame_" ++ str_of_nat frame_count ++ ".jpg")%string]))
        as [paths E].
      exists paths. rewrite E. f_equal. f_equal. lia.
    + destruct (IH (frame_count + 1) extracted_frames) as [paths E].
      exists paths. rewrite E. f_equal. f_equal. lia.
Qed.

(** The analyses the frame loop appends are numbered by position. *)
Lemma analyze_frames_numbers (B : Backend) (frame_paths : list string) :
  forall (i : nat) (st : FrameLoop B),
  exists new,
    loop_frame_analyses (analyze_frames B i frame_paths st) =
      loop_frame_analyses st ++ new /\
    length new = length frame_paths /\
    forall k f, nth_error new k = Some f ->
      FrameAnalysis.frame_number f = (i + k) * frame_extraction_interval /\
      FrameAnalysis.timestamp f =
        (float_of_nat ((i + k) * frame_extraction_interval) / 30.0)%float.
Proof.
  induction frame_paths as [|p ps IH]; intros i st.
  - exists []. cbn [analyze_frames]. rewrite app_nil_r.
    repeat split; destruct k; discriminate.
  - cbn [analyze_frames].
    destruct (analyze_image B (loop_model st) p) as [frame_analysis model].
    match goal with
    | |- context [analyze_frames B (i + 1) ps ?s] =>
        destruct (IH (i + 1) s) as [new [E [L N]]]
    end.
    cbn [loop_frame_analyses] in E.
    eexists (_ :: new). rewrite E, <- app_assoc. cbn [app].
    split; [reflexivity|]. split; [simpl; now rewrite L|].
    intros [|k] f Hk; cbn [nth_error] in Hk.
    + injection Hk as <-. cbn. rewrite Nat.add_0_r. split; reflexivity.
    + apply N in Hk. replace (i + S k) with (i + 1 + k) by lia. exact Hk.
Qed.

Lemma analyze_frames_stamps (B : Backend) (frame_paths : list string) :
  forall (i : nat) (st : FrameLoop B),
  exists new,
    loop_frame_analyses (analyze_frames B i frame_paths st) =
      loop_frame_analyses st ++ new /\
    map FrameAnalysis.frame_number new =
      map (fun k => k * frame_extraction_interval)
          (seq i (length frame_paths)) /\
    map FrameAnalysis.timestamp new =
      map (fun k =>
             (float_of_nat (k * frame_extraction_interval) / 30.0)%float)
          (seq i (length frame_paths)).
Proof.
  induction frame_paths as [|p ps IH]; intros i st.
  - exists []. cbn [analyze_frames]. now rewrite app_nil_r.
  - cbn [analyze_frames].
    destruct (analyze_image B (loop_model st) p) as [frame_analysis model].
    match goal with
    | |- context [analyze_frames B (i + 1) ps ?s] =>
        destruct (IH (i + 1) s) as [new [E [N T]]]
    end.
    cbn [loop_frame_analyses] in E.
    eexists (_ :: new). rewrite E, <- app_assoc. cbn [app].
    split; [reflexivity|].
    cbn [map length seq FrameAnalysis.frame_number FrameAnalysis.timestamp].
    replace (S i) with (i + 1) by lia. now rewrite N, T.
Qed.

(** Whatever the video reports, the frame rate [extract_key_frames] reads
    is the 0 of a released capture. *)
Lemma released_capture_fps (B : Backend) (video_path : string) :
  cap_get_fps (cap_release (cv2_VideoCapture B video_path)) = 0%float.
Proof. reflexivity. Qed.

(** C9 (the code departs from the claim).  The claim gives the duration as
    the number of frames divided by the reported frame rate when that is
    greater than zero.  The code computes that quotient from the frame rate
    it reads after [cap.release()], and a released capture answers 0: the
    duration [extract_key_frames] returns is the integer 0 for every video,
    whatever frame rate it reports and however many frames it has.  For a
    video of 90 frames that reports 29.97 frames per second the code returns
    three frame paths and duration 0, where the claim gives 90 / 29.97.  The
    other two parts of the claim hold: a frame rate of zero raises nothing,
    and [analyze_video] returns one analysis for each extracted frame path,
    the k-th with frame number k * 30 and timestamp (k * 30) / 30.0, in which
    the reported frame rate takes no part. *)
Theorem duration_read_after_release :
  forall (B : Backend) (self_model : option (keras_model B))
         (video_path : string),
    let frame_paths := fst (extract_key_frames B video_path) in
    let r := fst (analyze_video B self_model video_path) in
    snd (extract_key_frames B video_path) = PInt 0 /\
    map FrameAnalysis.frame_number (VideoAssessment.frame_analyses r) =
      map (fun k => k * 30) (seq 0 (length frame_paths)) /\
    map FrameAnalysis.timestamp (VideoAssessment.frame_analyses r) =
      map (fun k => (float_of_nat (k * 30) / 30.0)%float)
          (seq 0 (length frame_paths)) /\
    extract_key_frames (mock_backend (seq 0 90) 29.97) "/uploads/v.mp4" =
      (["/uploads/temp_frames/frame_0.jpg";
        "/uploads/temp_frames/frame_30.jpg";
        "/uploads/temp_frames/frame_60.jpg"], PInt 0) /\
    spec_duration 90 29.97 = PFloat (float_of_nat 90 / 29.97)%float /\
    spec_duration 90 29.97 <> PInt 0.
Proof.
  intros B self_model video_path frame_paths r.
  split; [|split; [|split; [|split; [|split]]]].
  - unfold extract_key_frames, extract_key_frames_body.
    destruct (os_makedirs B _); cbn [bind try_except snd]; [|reflexivity].
    destruct (read_frames B _ _ _ _); cbn [bind try_except snd];
      reflexivity.
  - subst r frame_paths. unfold analyze_video.
    destruct (extract_key_frames B video_path) as [paths d].
    cbn [fst]. destruct paths as [|p ps]; [reflexivity|].
    match goal with
    | |- context [analyze_frames B 0 ?l ?s] =>
        destruct (analyze_frames_stamps B l 0 s) as [new [E [N _]]]
    end.
    cbn [fst VideoAssessment.frame_analyses]. rewrite E. exact N.
  - subst r frame_paths. unfold analyze_video.
    destruct (extract_key_frames B video_path) as [paths d].
    cbn [fst]. destruct paths as [|p ps]; [reflexivity|].
    match goal with
    | |- context [analyze_frames B 0 ?l ?s] =>
        destruct (analyze_frames_stamps B l 0 s) as [new [E [_ T]]]
    end.
    cbn [fst VideoAssessment.frame_analyses]. rewrite E. exact T.
  - vm_compute. reflexivity.
  - vm_compute. reflexivity.
  - vm_compute. discriminate.
Qed.

(** ** Regular expressions *)

Section RegexSemantics.
#[local] Open Scope string_scope.

Lemma append_empty (u v : string) : (u ++ v) = "" -> u = "" /\ v = "".
Proof. destruct u; simpl; [auto | discriminate]. Qed.

Lemma append_nil_r (u : string) : u ++ "" = u.
Proof. induction u; simpl; congruence. Qed.

Lemma append_assoc (u v w : string) : (u ++ v) ++ w = u ++ v ++ w.
Proof. induction u; simpl; congruence. Qed.

Lemma matches_Empty (w : string) : ~ matches Empty w.
Proof. intros H. inversion H. Qed.

Lemma matches_Eps_inv (w : string) : matches Eps w -> w = "".
Proof. intros H. now inversion H. Qed.

Lemma matches_Lit_inv (c : ascii) (w : string) :
  matches (Lit c) w ->
  exists a, w = String a "" /\ lower_ascii a = lower_ascii c.
Proof. intros H. inversion H; subst. eauto. Qed.

Lemma matches_Dot_inv (w : string) :
  matches Dot w -> exists a, w = String a "" /\ a <> newline.
Proof. intros H. inversion H; subst. eauto. Qed.

Lemma matches_Cat_inv (r s : regex) (w : string) :
  matches (Cat r s) w ->
  exists u v, w = u ++ v /\ matches r u /\ matches s v.
Proof. intros H. inversion H; subst. eauto. Qed.

Lemma matches_Alt_inv (r s : regex) (w : string) :
  matches (Alt r s) w -> matches r w \/ matches s w.
Proof. intros H. inversion H; subst; auto. Qed.

Lemma nullable_matches (r : regex) : nullable r = true <-> matches r "".
Proof.
  split.
  - induction r; simpl; intros H; try discriminate.
    + constructor.
    + apply andb_true_iff in H. destruct H.
      change "" with ("" ++ ""). constructor; auto.
    + apply orb_true_iff in H. destruct H; [apply MAltL | apply MAltR]; auto.
    + constructor.
  - intros H. remember "" as w eqn:W. induction H; simpl; try discriminate; auto.
    + apply append_empty in W. destruct W. rewrite IHmatches1, IHmatches2; auto.
    + rewrite IHmatches; auto.
    + rewrite IHmatches; auto. apply orb_true_r.
Qed.

Lemma matches_cat (r s : regex) (w : string) :
  matches (cat r s) w <-> matches (Cat r s) w.
Proof.
  assert (E1 : forall s, matches Empty w <-> matches (Cat Empty s) w).
  { intros s0. split; intros H; [now apply matches_Empty in H|].
    apply matches_Cat_inv in H. destruct H as [u [v [_ [H _]]]].
    now apply matches_Empty in H. }
  assert (E2 : forall r, matches Empty w <-> matches (Cat r Empty) w).
  { intros r0. split; intros H; [now apply matches_Empty in H|].
    apply matches_Cat_inv in H. destruct H as [u [v [_ [_ H]]]].
    now apply matches_Empty in H. }
  assert (E3 : forall s, matches s w <-> matches (Cat Eps s) w).
  { intros s0. split; intros H.
    - change w with ("" ++ w). constructor; [constructor | auto].
    - apply matches_Cat_inv in H. destruct H as [u [v [E [Hu Hv]]]].
      apply matches_Eps_inv in Hu. now subst. }
  destruct r; simpl; auto; destruct s; simpl; auto; reflexivity.
Qed.

Lemma matches_alt (r s : regex) (w : string) :
  matches (alt r s) w <-> matches (Alt r s) w.
Proof.
  assert (E1 : forall s, matches s w <-> matches (Alt Empty s) w).
  { intros s0. split; intros H; [now apply MAltR|].
    apply matches_Alt_inv in H. destruct H as [H|H]; auto.
    now apply matches_Empty in H. }
  assert (E2 : forall r, matches r w <-> matches (Alt r Empty) w).
  { intros r0. split; intros H; [now apply MAltL|].
    apply matches_Alt_inv in H. destruct H as [H|H]; auto.
    now apply matches_Empty in H. }
  destruct r; simpl; auto; destruct s; simpl; auto; reflexivity.
Qed.

Lemma matches_star_cons (r : regex) (a : ascii) (w : string) :
  matches (Star r) (String a w) ->
  exists u v, w = u ++ v /\ matches r (String a u) /\ matches (Star r) v.
Proof.
  intros H. remember (Star r) as sr eqn:R. remember (String a w) as aw eqn:W.
  revert w W. induction H; intros w W; try discriminate.
  injection R as ->.
  destruct u as [|b u]; simpl in W.
  - apply IHmatches2; auto.
  - injection W as E1 E2. subst b w. exists u, v. auto.
Qed.

Lemma deriv_matches (a : ascii) (r : regex) :
  forall w, matches (deriv a r) w <-> matches r (String a w).
Proof.
  induction r as [| |c| |r1 IH1 r2 IH2|r1 IH1 r2 IH2|r IH]; intros w;
    cbn [deriv].
  - split; intros H; now apply matches_Empty in H.
  - split; intros H; [now apply matches_Empty in H|].
    apply matches_Eps_inv in H. discriminate.
  - destruct (Ascii.eqb_spec (lower_ascii a) (lower_ascii c)) as [E|E].
    + split; intros H.
      * apply matches_Eps_inv in H. subst w. now constructor.
      * apply matches_Lit_inv in H. destruct H as [b [Eb _]].
        injection Eb as _ ->. constructor.
    + split; intros H; [now apply matches_Empty in H|].
      apply matches_Lit_inv in H. destruct H as [b [Eb Hb]].
      injection Eb as -> _. contradiction.
  - destruct (Ascii.eqb_spec a newline) as [E|E].
    + split; intros H; [now apply matches_Empty in H|].
      apply matches_Dot_inv in H. destruct H as [b [Eb Hb]].
      injection Eb as -> _. contradiction.
    + split; intros H.
      * apply matches_Eps_inv in H. subst w. now constructor.
      * apply matches_Dot_inv in H. destruct H as [b [Eb _]].
        injection Eb as _ ->. constructor.
  - rewrite matches_alt. split; intros H.
    + apply matches_Alt_inv in H. destruct H as [H|H].
      * apply matches_cat, matches_Cat_inv in H.
        destruct H as [u [v [-> [Hu Hv]]]]. apply IH1 in Hu.
        change (String a (u ++ v)) with (String a u ++ v). now constructor.
      * destruct (nullable r1) eqn:N; [|now apply matches_Empty in H].
        apply IH2 in H. apply nullable_matches in N.
        change (String a w) with ("" ++ String a w). now constructor.
    + apply matches_Cat_inv in H. destruct H as [u [v [E [Hu Hv]]]].
      destruct u as [|b u]; simpl in E.
      * subst v. apply MAltR. apply nullable_matches in Hu. rewrite Hu.
        now apply IH2.
      * injection E as E1 E2. subst b w. apply MAltL, matches_cat.
        constructor; [now apply IH1 | auto].
  - rewrite matches_alt. split; intros H.
    + apply matches_Alt_inv in H.
      destruct H as [H|H]; [apply MAltL, IH1 | apply MAltR, IH2]; auto.
    + apply matches_Alt_inv in H.
      destruct H as [H|H]; [apply MAltL, IH1 | apply MAltR, IH2]; auto.
  - rewrite matches_cat. split; intros H.
    + apply matches_Cat_inv in H. destruct H as [u [v [-> [Hu Hv]]]].
      apply IH in Hu.
      change (String a (u ++ v)) with (String a u ++ v). now constructor.
    + apply matches_star_cons in H. destruct H as [u [v [-> [Hu Hv]]]].
      constructor; [now apply IH | auto].
Qed.

(** [re_match r s] holds exactly when [r] matches a prefix of [s]. *)
Lemma re_match_matches (s : string) :
  forall r, re_match r s = true <->
            exists p q, s = p ++ q /\ matches r p.
Proof.
  induction s as [|a s IH]; intros r; cbn [re_match].
  - rewrite orb_false_r, nullable_matches. split.
    + intros H. now exists "", "".
    + intros [p [q [E H]]]. symmetry in E. apply append_empty in E.
      destruct E; now subst.
  - rewrite orb_true_iff, nullable_matches, IH. split.
    + intros [H|[p [q [E H]]]].
      * now exists "", (String a s).
      * exists (String a p), q. subst s. split; [reflexivity|].
        now apply deriv_matches.
    + intros [p [q [E H]]]. destruct p as [|b p]; simpl in E.
      * now left.
      * injection E as E1 E2. subst b s. right. exists p, q.
        split; [reflexivity|].
        now apply deriv_matches.
Qed.

End RegexSemantics.

(** ** The fast path of [process_query] *)

(** C5.  When the GFCI pattern matches the query, [process_query] answers
    from the pattern alone, whatever the NEC table holds: confidence 0.85,
    one reference, to section 210.8 with relevance 0.85, and the text of
    the GFCI template followed by the advisory notes the query calls for.
    Only the title of the reference is read from the table. *)
Theorem gfci_fast_path :
  forall (database : list (string * NecSection.t)) (query : string),
    re_match gfci_pattern query = true ->
    let self := {| nec_database := database;
                   common_patterns := _initialize_query_patterns |} in
    let r := process_query self query in
    Response.confidence r = 0.85%float /\
    (exists title,
       Response.references r =
       [ {| Reference.section := "210.8";
            Reference.title := title;
            Reference.relevance := 0.85%float |} ]) /\
    Response.error r = None /\
    (forall database' : list (string * NecSection.t),
       let r' := process_query
                   {| nec_database := database';
                      common_patterns := _initialize_query_patterns |}
                   query in
       Response.response r' = Response.response r /\
       Response.confidence r' = Response.confidence r /\
       map Reference.section (Response.references r') =
         map Reference.section (Response.references r)).
Proof.
  intros database query H self r.
  assert (E : forall db,
    process_query {| nec_database := db;
                     common_patterns := _initialize_query_patterns |} query =
    _enhance_response_with_context
      {| Response.response := gfci_response_template;
         Response.references :=
           [ {| Reference.section := "210.8";
                Reference.title :=
                  match dict_get db "210.8" with
                  | Some data => NecSection.title data
                  | None => "NEC Section"
                  end;
                Reference.relevance := 0.85%float |} ];
         Response.confidence := 0.85%float;
         Response.error := None |} query).
  { intros db. unfold process_query, process_query_body, _match_query_patterns.
    cbn [common_patterns nec_database].
    unfold _initialize_query_patterns at 1.
    cbn [match_patterns Pattern.pattern]. rewrite H.
    reflexivity. }
  subst r self. rewrite E.
  unfold _enhance_response_with_context.
  cbn [Response.confidence Response.references Response.error
       Response.response].
  split; [reflexivity|]. split; [eexists; reflexivity|].
  split; [reflexivity|].
  intros database'. cbn zeta. rewrite E.
  cbn [Response.confidence Response.references Response.error
       Response.response map Reference.section].
  repeat split.
Qed.

Lemma gfci_fast_path_witness :
  re_match gfci_pattern "Is GFCI required in a kitchen?" = true /\
  Response.confidence
    (process_query {| nec_database := [];
                      common_patterns := _initialize_query_patterns |}
                   "Is GFCI required in a kitchen?") = 0.85%float.
Proof.
  split; [vm_compute; reflexivity|].
  apply (gfci_fast_path [] "Is GFCI required in a kitchen?").
  vm_compute; reflexivity.
Defined.

(** ** The response composer *)

(** The confidence cap lies below 1. *)
Lemma py_min_cap_not_one (x : float) : py_min x 0.95 <> 1.0%float.
Proof.
  unfold py_min. destruct (0.95 <? x)%float eqn:E.
  - apply float_neq; vm_compute; reflexivity.
  - intros H. rewrite H in E. vm_compute in E. discriminate.
Qed.

Lemma subsections_loop (title : string) (relevance : float)
    (subsections : list (string * string))
    (st : list string * list Reference.t) :
  snd (fold_left (add_subsection title relevance) subsections st) =
  snd st ++
  map (fun item =>
         {| Reference.section := fst item;
            Reference.title := (title ++ " - Subsection")%string;
            Reference.relevance := (relevance * 0.9)%float |})
      subsections.
Proof.
  revert st. induction subsections as [|item items IH]; intros st; simpl.
  - now rewrite app_nil_r.
  - rewrite IH. cbn [add_subsection snd]. now rewrite <- app_assoc.
Qed.

Lemma add_related_bound (self : CodeQueryService)
    (rest : list (string * float)) :
  (forall section_id, In section_id (map fst rest) ->
                      dict_get (nec_database self) section_id <> None) ->
  forall st : list string * list Reference.t,
  exists st' also,
    add_related self rest st = Return st' /\
    snd st' = snd st ++ also /\
    map Reference.section also = map fst rest /\
    map Reference.relevance also = map snd rest.
Proof.
  induction rest as [|[section_id score] rest IH]; intros Hin st.
  - exists st, []. cbn. now rewrite app_nil_r.
  - cbn [add_related]. unfold dict_item.
    destruct (dict_get (nec_database self) section_id) as [data|] eqn:G.
    2:{ exfalso. apply (Hin section_id); [now left | exact G]. }
    cbn [bind].
    match goal with
    | |- context [add_related self rest ?s] =>
        destruct (IH (fun i Hi => Hin i (or_intror Hi)) s)
          as [st' [also [E [S1 [S2 S3]]]]]
    end.
    cbn [snd] in S1.
    eexists st', (_ :: also). rewrite E, S1, <- app_assoc. cbn [app map].
    rewrite S2, S3. repeat split.
Qed.

(** C8.  For a non-empty match list whose section ids are entries of the
    NEC table, [_generate_response] returns a response whose confidence is
    min(primary relevance * 1.2, 0.95), which is never 1.0.  Its references
    are the primary section at its own relevance, then one reference for each
    subsection of the primary section at primary relevance * 0.9, then one
    for each remaining match at that match's own score. *)
Theorem response_confidence_cap :
  forall (self : CodeQueryService) (query primary_section : string)
         (primary_relevance : float) (rest : list (string * float)),
    (forall section_id,
       In section_id (primary_section :: map fst rest) ->
       dict_get (nec_database self) section_id <> None) ->
    exists r primary_data also,
      _generate_response self query
        ((primary_section, primary_relevance) :: rest) = Return r /\
      dict_get (nec_database self) primary_section = Some primary_data /\
      Response.confidence r =
        py_min (primary_relevance * 1.2)%float 0.95%float /\
      Response.confidence r <> 1.0%float /\
      Response.references r =
        {| Reference.section := primary_section;
           Reference.title := NecSection.title primary_data;
           Reference.relevance := primary_relevance |} ::
        map (fun item =>
               {| Reference.section := fst item;
                  Reference.title :=
                    (NecSection.title primary_data ++ " - Subsection")%string;
                  Reference.relevance := (primary_relevance * 0.9)%float |})
            (get_default (NecSection.subsections primary_data) []) ++
        also /\
      map Reference.section also = map fst rest /\
      map Reference.relevance also = map snd rest.
Proof.
  intros self query primary_section primary_relevance rest Hin.
  cbn [_generate_response]. unfold dict_item.
  destruct (dict_get (nec_database self) primary_section)
    as [primary_data|] eqn:G.
  2:{ exfalso. apply (Hin primary_section); [now left | exact G]. }
  cbn [bind].
  match goal with
  | |- context [add_related self rest ?s] =>
      destruct (add_related_bound self rest
                  (fun i Hi => Hin i (or_intror Hi)) s)
        as [st' [also [E [S1 [S2 S3]]]]]
  end.
  exists {| Response.response := join (fst st');
            Response.references := snd st';
            Response.confidence :=
              py_min (primary_relevance * 1.2)%float 0.95%float;
            Response.error := None |}, primary_data, also.
  rewrite E. cbn [bind Response.confidence Response.references].
  split; [reflexivity|]. split; [reflexivity|]. split; [reflexivity|].
  split; [apply py_min_cap_not_one|].
  split; [|split; assumption].
  rewrite S1. destruct (NecSection.subsections primary_data) as [subs|].
  - rewrite subsections_loop. reflexivity.
  - reflexivity.
Qed.

Lemma response_confidence_cap_witness :
  _search_nec_sections new_CodeQueryService ["gfci"; "protection"] =
    [("210.8", truediv 2 10); ("240.21", truediv 1 7)] /\
  exists r primary_data also,
    _generate_response new_CodeQueryService "gfci protection"
      [("210.8", truediv 2 10); ("240.21", truediv 1 7)] = Return r /\
    dict_get (nec_database new_CodeQueryService) "210.8" = Some primary_data /\
    Response.confidence r = py_min (truediv 2 10 * 1.2)%float 0.95%float /\
    Response.confidence r <> 1.0%float /\
    Response.references r =
      {| Reference.section := "210.8";
         Reference.title := NecSection.title primary_data;
         Reference.relevance := truediv 2 10 |} ::
      map (fun item =>
             {| Reference.section := fst item;
                Reference.title :=
                  (NecSection.title primary_data ++ " - Subsection")%string;
                Reference.relevance := (truediv 2 10 * 0.9)%float |})
          (get_default (NecSection.subsections primary_data) []) ++
      also /\
    map Reference.section also = map fst [("240.21", truediv 1 7)] /\
    map Reference.relevance also = map snd [("240.21", truediv 1 7)].
Proof.
  split; [vm_compute; reflexivity|].
  apply (response_confidence_cap new_CodeQueryService "gfci protection"
           "210.8" (truediv 2 10) [("240.21", truediv 1 7)]).
  intros section_id [<-|[<-|[]]]; vm_compute; discriminate.
Defined.

(** ** Every match the search returns is an entry of the table *)

Lemma dict_get_bound {V : Type} (d : list (string * V)) (k : string) :
  In k (map fst d) -> dict_get d k <> None.
Proof.
  induction d as [|[k' v] d IH]; simpl; [tauto|].
  intros [E|H].
  - subst k'. rewrite String.eqb_refl. discriminate.
  - destruct (k =? k')%string; [discriminate | auto].
Qed.

Lemma insert_match_In (x y : string * float) (l : list (string * float)) :
  In y (insert_match x l) -> y = x \/ In y l.
Proof.
  induction l as [|z l IH]; simpl.
  - intros [E|[]]; auto.
  - destruct (snd x <? snd z)%float; simpl.
    + intros [E|H]; auto. apply IH in H. tauto.
    + intros [E|[E|H]]; auto.
Qed.

Lemma sort_matches_In (y : string * float) (l : list (string * float)) :
  In y (sort_matches l) -> In y l.
Proof.
  induction l as [|x l IH]; simpl; [tauto|].
  intros H. apply insert_match_In in H. destruct H; auto.
Qed.

Lemma search_loop_ids (keywords : list string)
    (database : list (string * NecSection.t)) :
  forall (matches : list (string * float)) (y : string * float),
    In y (fold_left (search_section keywords) database matches) ->
    In y matches \/ In (fst y) (map fst database).
Proof.
  induction database as [|item database IH]; intros matches y; simpl; auto.
  intros H. apply IH in H. destruct H as [H|H]; auto.
  unfold search_section in H. destruct (0 <? _)%nat; auto.
  apply in_app_or in H. destruct H as [H|[E|[]]]; auto.
  subst y. auto.
Qed.

(** So the lookups of [_generate_response] never fail on the matches
    [process_query] hands it. *)
Lemma search_ids_bound (self : CodeQueryService) (keywords : list string)
    (section_id : string) :
  In section_id (map fst (_search_nec_sections self keywords)) ->
  dict_get (nec_database self) section_id <> None.
Proof.
  intros H. apply in_map_iff in H. destruct H as [y [E H]]. subst section_id.
  unfold _search_nec_sections in H.
  apply dict_get_bound.
  assert (H' : In y (sort_matches
                       (fold_left (search_section keywords)
                                  (nec_database self) []))).
  { revert H. generalize (sort_matches
      (fold_left (search_section keywords) (nec_database self) [])).
    intros l. generalize 3. induction l as [|z l IH]; intros [|n]; simpl; auto.
    - tauto.
    - intros [E|H]; eauto. }
  apply sort_matches_In, search_loop_ids in H'. destruct H' as [[]|H']; auto.
Qed.

Lemma generate_response_returns (self : CodeQueryService) (query : string)
    (relevant_sections : list (string * float)) :
  (forall section_id, In section_id (map fst relevant_sections) ->
                      dict_get (nec_database self) section_id <> None) ->
  exists r, _generate_response self query relevant_sections = Return r.
Proof.
  destruct relevant_sections as [|[primary_section primary_relevance] rest];
    intros Hin; [now eexists|].
  cbn [_generate_response]. unfold dict_item.
  destruct (dict_get (nec_database self) primary_section) as [data|] eqn:G.
  2:{ exfalso. apply (Hin primary_section); [now left | exact G]. }
  cbn [bind].
  match goal with
  | |- context [add_related self rest ?s] =>
      destruct (add_related_bound self rest
                  (fun i Hi => Hin i (or_intror Hi)) s) as [st' [also [E _]]]
  end.
  rewrite E. now eexists.
Qed.

(** The [except] arm of [process_query] is never taken: its [try] body
    returns a response for every table, pattern list and query. *)
Lemma process_query_body_returns (self : CodeQueryService) (query : string) :
  exists r, process_query_body self query = Return r.
Proof.
  unfold process_query_body.
  destruct (_match_query_patterns self query); [now eexists|].
  destruct (_extract_keywords query) as [|keyword keywords] eqn:K;
    [now eexists|].
  destruct (generate_response_returns self query
              (_search_nec_sections self (keyword :: keywords))
              (search_ids_bound self (keyword :: keywords))) as [r E].
  rewrite E. now eexists.
Qed.

(* ================================================================== *)
(** * Further properties of ai_analysis.py *)
(* ================================================================== *)

(** ** The rule engine *)

Lemma spec_apply_rules_length (c : Component.t) :
  length (spec_apply_rules c) <= 1.
Proof.
  rewrite spec_apply_rules_cases.
  destruct (is_outlet_without_gfci c); [simpl; lia|].
  destruct (is_junction_box c); simpl; lia.
Qed.

Lemma check_code_violations_flat (components : list Component.t)
    (image_path : string) :
  check_code_violations components image_path =
  flat_map spec_apply_rules components.
Proof. unfold check_code_violations. now rewrite check_loop_rules. Qed.

(** X1.  The rules are additive: the violations of a concatenation of
    detection lists are those of the first list followed by those of the
    second, so detections never interact.  A detection gives at most one
    violation: there are never more violations than detections. *)
Theorem check_code_violations_additive :
  forall (components1 components2 : list Component.t) (image_path : string),
    check_code_violations (components1 ++ components2) image_path =
      check_code_violations components1 image_path ++
      check_code_violations components2 image_path /\
    length (check_code_violations components1 image_path) <=
      length components1.
Proof.
  intros components1 components2 image_path.
  rewrite !check_code_violations_flat. split; [apply flat_map_app|].
  induction components1 as [|c cs IH]; simpl; [lia|].
  rewrite length_app. pose proof (spec_apply_rules_length c). lia.
Qed.

(** X2.  Every violation comes from one detection of the input, an outlet
    or a junction box, and carries that detection's id: a missing_gfci
    violation (high, NEC 210.8, confidence 0.75) from an outlet, a
    potential_overcrowding violation (medium, NEC 314.16, confidence 0.60)
    from a junction box. *)
Theorem violation_origin :
  forall (components : list Component.t) (image_path : string)
         (v : Violation.t),
    In v (check_code_violations components image_path) ->
    exists c,
      In c components /\
      Violation.component_id v = Component.id c /\
      ((Component.type c = "outlet" /\
        Violation.type v = "missing_gfci" /\
        Violation.severity v = "high" /\
        Violation.code_reference v = Some "NEC 210.8" /\
        Violation.confidence v = 0.75%float) \/
       (Component.type c = "junction_box" /\
        Violation.type v = "potential_overcrowding" /\
        Violation.severity v = "medium" /\
        Violation.code_reference v = Some "NEC 314.16" /\
        Violation.confidence v = 0.60%float)).
Proof.
  intros components image_path v. rewrite check_code_violations_flat.
  rewrite in_flat_map. intros [c [Hc Hv]]. exists c. split; [exact Hc|].
  rewrite spec_apply_rules_cases in Hv.
  unfold is_outlet_without_gfci, is_junction_box in Hv.
  destruct (String.eqb_spec (Component.type c) "outlet") as [E|E].
  - cbn [andb] in Hv. destruct (gfci_false_or_absent c).
    + destruct Hv as [<-|[]]. split; [reflexivity|]. left. now repeat split.
    + rewrite E in Hv. cbn in Hv. contradiction.
  - cbn [andb] in Hv.
    destruct (String.eqb_spec (Component.type c) "junction_box") as [E'|E'].
    + destruct Hv as [<-|[]]. split; [reflexivity|]. right. now repeat split.
    + contradiction.
Qed.

Lemma violation_origin_witness :
  In (missing_gfci_violation (hd (Component.mk "" 0 [] [] None)
                                 mock_detected_components))
     (check_code_violations mock_detected_components "/uploads/a.jpg") /\
  exists c,
    In c mock_detected_components /\
    Component.type c = "outlet" /\
    Violation.component_id
      (missing_gfci_violation (hd (Component.mk "" 0 [] [] None)
                                  mock_detected_components)) =
    Component.id c.
Proof.
  assert (H : In (missing_gfci_violation
                    (hd (Component.mk "" 0 [] [] None)
                        mock_detected_components))
                 (check_code_violations mock_detected_components
                                        "/uploads/a.jpg")).
  { left. reflexivity. }
  split; [exact H|].
  destruct (violation_origin mock_detected_components "/uploads/a.jpg" _ H)
    as [c [Hc [Hid [[Ht _]|[_ [Ht _]]]]]].
  - exists c. auto.
  - discriminate Ht.
Defined.

(** ** From detections to the verdict *)

Lemma high_violations_count (components : list Component.t) :
  length (filter (fun v => (Violation.severity v =? "high")%string)
                 (flat_map spec_apply_rules components)) =
  length (filter is_outlet_without_gfci components).
Proof.
  induction components as [|c cs IH]; [reflexivity|].
  cbn [flat_map filter]. rewrite filter_app, length_app, IH.
  rewrite spec_apply_rules_cases.
  destruct (is_outlet_without_gfci c); [reflexivity|].
  destruct (is_junction_box c); reflexivity.
Qed.

Lemma medium_violations_count (components : list Component.t) :
  length (filter (fun v => (Violation.severity v =? "medium")%string)
                 (flat_map spec_apply_rules components)) =
  length (filter is_junction_box components).
Proof.
  induction components as [|c cs IH]; [reflexivity|].
  cbn [flat_map filter]. rewrite filter_app, length_app, IH.
  rewrite spec_apply_rules_cases.
  destruct (is_outlet_without_gfci c) eqn:O.
  - assert (J : is_junction_box c = false).
    { unfold is_outlet_without_gfci, is_junction_box in *.
      destruct (String.eqb_spec (Component.type c) "outlet") as [->|];
        [reflexivity | discriminate]. }
    now rewrite J.
  - destruct (is_junction_box c); reflexivity.
Qed.

(** X3.  The two stages compose into one reading of the detections: the
    assessment of an image's detections is fail exactly when an outlet
    without GFCI protection was detected; when there is none it is warning
    exactly when more than two junction boxes were detected, and pass
    otherwise.  The summary counts those outlets as high and the junction
    boxes as medium. *)
Theorem verdict_of_detections :
  forall (components : list Component.t) (image_path : string),
    let a := calculate_overall_assessment components
               (check_code_violations components image_path) in
    let outlets := length (filter is_outlet_without_gfci components) in
    let boxes := length (filter is_junction_box components) in
    (Assessment.overall_result a = "fail" <-> 0 < outlets) /\
    (Assessment.overall_result a = "warning" <-> outlets = 0 /\ 2 < boxes) /\
    (Assessment.overall_result a = "pass" <-> outlets = 0 /\ boxes <= 2) /\
    Assessment.summary a =
      Some {| Summary.components_detected := length components;
              Summary.violations_found := outlets + boxes;
              Summary.high_severity := outlets;
              Summary.medium_severity := boxes |}.
Proof.
  intros components image_path a outlets boxes. subst a.
  unfold calculate_overall_assessment.
  cbn [Assessment.overall_result Assessment.summary].
  rewrite check_code_violations_flat.
  rewrite high_violations_count, medium_violations_count.
  fold outlets. fold boxes.
  assert (L : length (flat_map spec_apply_rules components) = outlets + boxes).
  { subst outlets boxes. clear.
    induction components as [|c cs IH]; [reflexivity|].
    cbn [flat_map filter]. rewrite length_app, IH, spec_apply_rules_cases.
    destruct (is_outlet_without_gfci c) eqn:O.
    - assert (J : is_junction_box c = false).
      { unfold is_outlet_without_gfci, is_junction_box in *.
        destruct (String.eqb_spec (Component.type c) "outlet") as [->|];
          [reflexivity | discriminate]. }
      rewrite J. simpl. lia.
    - destruct (is_junction_box c); simpl; lia. }
  rewrite L.
  destruct (Nat.ltb_spec 0 outlets) as [Ho|Ho];
    [|destruct (Nat.ltb_spec 2 boxes) as [Hb|Hb]]; cbn [fst];
    (split; [|split; [|split]]); try reflexivity;
    split; intros H; try discriminate H; try lia; try reflexivity.
Qed.

(** ** The assessment ladder is monotone *)

Lemma filter_length_app_le {A : Type} (f : A -> bool) (l extra : list A) :
  length (filter f l) <= length (filter f (l ++ extra)).
Proof. rewrite filter_app, length_app. lia. Qed.

Lemma disjoint_filters_le (violations : list Violation.t) :
  length (filter (fun v => (Violation.severity v =? "high")%string)
                 violations) +
  length (filter (fun v => (Violation.severity v =? "medium")%string)
                 violations) <=
  length violations.
Proof.
  induction violations as [|v vs IH]; simpl; [lia|].
  destruct (String.eqb_spec (Violation.severity v) "high") as [E|E].
  - rewrite E. simpl. lia.
  - destruct (Violation.severity v =? "medium")%string; simpl; lia.
Qed.

(** X4.  More violations never give a better verdict: on a violation list
    extended by further violations the assessment ranks at least as high
    (pass below warning below fail), whatever the detections.  The verdict
    is always one of pass, warning and fail, never error, and in the summary
    the high and the medium counts together do not exceed the number of
    violations. *)
Theorem assessment_monotone :
  forall (components components' : list Component.t)
         (violations extra : list Violation.t),
    let a := calculate_overall_assessment components violations in
    let a' := calculate_overall_assessment components' (violations ++ extra) in
    verdict_rank (Assessment.overall_result a) <=
      verdict_rank (Assessment.overall_result a') /\
    In (Assessment.overall_result a) ["pass"; "warning"; "fail"] /\
    exists s, Assessment.summary a = Some s /\
              Summary.violations_found s = length violations /\
              Summary.components_detected s = length components /\
              Summary.high_severity s + Summary.medium_severity s <=
                Summary.violations_found s.
Proof.
  intros components components' violations extra a a'. subst a a'.
  unfold calculate_overall_assessment.
  cbn [Assessment.overall_result Assessment.summary].
  pose proof (filter_length_app_le
                (fun v => (Violation.severity v =? "high")%string)
                violations extra) as Hh.
  pose proof (filter_length_app_le
                (fun v => (Violation.severity v =? "medium")%string)
                violations extra) as Hm.
  pose proof (disjoint_filters_le violations) as Hd.
  set (h := length (filter (fun v => (Violation.severity v =? "high")%string)
                           violations)) in *.
  set (m := length (filter (fun v => (Violation.severity v =? "medium")%string)
                           violations)) in *.
  set (h' := length (filter (fun v => (Violation.severity v =? "high")%string)
                            (violations ++ extra))) in *.
  set (m' := length (filter
                       (fun v => (Violation.severity v =? "medium")%string)
                       (violations ++ extra))) in *.
  split; [|split].
  - destruct (Nat.ltb_spec 0 h); destruct (Nat.ltb_spec 0 h');
      destruct (Nat.ltb_spec 2 m); destruct (Nat.ltb_spec 2 m');
      cbn; lia.
  - destruct (0 <? h)%nat; [|destruct (2 <? m)%nat]; cbn; auto.
  - eexists. split; [reflexivity|]. cbn. repeat split. exact Hd.
Qed.

(** ** [analyze_image] on what the detector reports *)

(** The dict the [try] body builds once the library calls have succeeded. *)
Lemma analyze_image_success (B : Backend)
    (self_model : option (keras_model B)) (image_path : string)
    (image_array : ndarray B) (ts : float) (size : Z * Z) :
  pil_load B image_path = Return image_array ->
  tf_timestamp B = Return ts ->
  pil_size B image_path = Return size ->
  let components := detect_components B image_array in
  let violations := check_code_violations components image_path in
  let r := fst (analyze_image B self_model image_path) in
  Analysis.detected_components r = Some components /\
  Analysis.violations_found r = Some violations /\
  Analysis.overall_result r =
    Some (Assessment.overall_result
            (calculate_overall_assessment components violations)) /\
  ConfidenceScores.overall_confidence (Analysis.confidence_scores r) =
    Assessment.confidence (calculate_overall_assessment components violations) /\
  Analysis.recommendations r = _generate_recommendations violations /\
  ConfidenceScores.component_detection (Analysis.confidence_scores r) =
    Some match components with
         | [] => 0.0%float
         | _ :: _ => np_mean B (map Component.confidence components)
         end /\
  ConfidenceScores.violation_detection (Analysis.confidence_scores r) =
    Some match violations with
         | [] => 1.0%float
         | _ :: _ => np_mean B (map Violation.confidence violations)
         end /\
  Analysis.error r = None.
Proof.
  intros Hl Ht Hs components violations r. subst r.
  unfold analyze_image, analyze_image_body, preprocess_image.
  rewrite Hl. cbn [bind]. rewrite Ht. cbn [bind]. rewrite Hs.
  cbn [bind try_except fst]. repeat split.
Qed.

(** X6.  With the detector the source ships, which reports the same outlet
    without GFCI protection and the same switch for every image, every image
    that loads is assessed fail with overall confidence 0.85: one
    missing_gfci violation, and the recommendation to install GFCI
    protection. *)
Theorem mock_detector_always_fails :
  forall (B : Backend) (self_model : option (keras_model B))
         (image_path : string) (image_array : ndarray B) (ts : float)
         (size : Z * Z),
    pil_load B image_path = Return image_array ->
    model_detect B image_array = Return mock_detected_components ->
    tf_timestamp B = Return ts ->
    pil_size B image_path = Return size ->
    let r := fst (analyze_image B self_model image_path) in
    Analysis.overall_result r = Some "fail" /\
    ConfidenceScores.overall_confidence (Analysis.confidence_scores r) =
      0.85%float /\
    Analysis.detected_components r = Some mock_detected_components /\
    (exists v, Analysis.violations_found r = Some [v] /\
               Violation.type v = "missing_gfci") /\
    Analysis.recommendations r = [gfci_recommendation] /\
    Analysis.summary r =
      Some {| Summary.components_detected := 2;
              Summary.violations_found := 1;
              Summary.high_severity := 1;
              Summary.medium_severity := 0 |}.
Proof.
  intros B self_model image_path image_array ts size Hl Hd Ht Hs r. subst r.
  unfold analyze_image, analyze_image_body, preprocess_image,
    detect_components.
  rewrite Hl. cbn [bind]. rewrite Hd. cbn [try_except].
  rewrite Ht. cbn [bind]. rewrite Hs. cbn [bind try_except fst].
  cbn [Analysis.overall_result Analysis.confidence_scores
       Analysis.detected_components Analysis.violations_found
       Analysis.recommendations Analysis.summary
       ConfidenceScores.overall_confidence].
  repeat split. eexists. split; reflexivity.
Qed.

Lemma mock_detector_always_fails_witness :
  Analysis.overall_result
    (fst (analyze_image (mock_backend [] 30) None "/uploads/a.jpg")) =
  Some "fail".
Proof.
  apply (mock_detector_always_fails (mock_backend [] 30) None "/uploads/a.jpg"
           tt 0%float (224, 224)%Z eq_refl eq_refl eq_refl eq_refl).
Defined.

(** ** The frame loop and the video verdict *)

(** The dict [analyze_image] returns does not depend on whether the model
    was loaded before. *)
Lemma analyze_image_result_model (B : Backend)
    (self_model : option (keras_model B)) (image_path : string) :
  fst (analyze_image B self_model image_path) =
  fst (analyze_image B None image_path).
Proof. reflexivity. Qed.

(** What the frame loop appends: one analysis for each path, in order, and
    the components and violations of those analyses. *)
Lemma analyze_frames_appends (B : Backend) (frame_paths : list string) :
  forall (i : nat) (st : FrameLoop B),
  exists new,
    loop_frame_analyses (analyze_frames B i frame_paths st) =
      loop_frame_analyses st ++ new /\
    map FrameAnalysis.analysis new =
      map (fun path => fst (analyze_image B None path)) frame_paths /\
    loop_all_components (analyze_frames B i frame_paths st) =
      loop_all_components st ++ flat_map frame_components new /\
    loop_all_violations (analyze_frames B i frame_paths st) =
      loop_all_violations st ++ flat_map frame_violations new.
Proof.
  induction frame_paths as [|p ps IH]; intros i st.
  - exists []. cbn. now rewrite !app_nil_r.
  - cbn [analyze_frames].
    rewrite (surjective_pairing (analyze_image B (loop_model st) p)).
    match goal with
    | |- context [analyze_frames B (i + 1) ps ?s] =>
        destruct (IH (i + 1) s) as [new [E1 [E2 [E3 E4]]]]
    end.
    cbn [loop_frame_analyses loop_all_components loop_all_violations]
      in E1, E3, E4.
    eexists (_ :: new). rewrite E1, E3, E4, <- !app_assoc.
    cbn [app map flat_map FrameAnalysis.analysis]. rewrite E2.
    repeat split.
Qed.

Lemma video_assessment_values (frame_analyses : list FrameAnalysis.t) :
  frame_analyses <> [] ->
  In (_calculate_video_assessment frame_analyses) ["fail"; "warning"; "pass"].
Proof.
  destruct frame_analyses as [|f fs]; [contradiction|]. intros _.
  unfold _calculate_video_assessment.
  destruct (list_in "fail" _); [cbn; auto|].
  destruct (list_in "warning" _); [cbn; auto|].
  destruct (forallb _ _); cbn; auto.
Qed.

(** X7.  [analyze_video] analyses every extracted frame, none is skipped:
    there are as many frame analyses as frame paths, each the analysis of its
    path, and the summary counts them and the components and violations they
    hold.  The result is error exactly when no frame path was extracted;
    otherwise it is the fold of the frame analyses, one of fail, warning and
    pass, and the duration is the one the extraction reported. *)
Theorem analyze_video_shape :
  forall (B : Backend) (self_model : option (keras_model B))
         (video_path : string),
    let frame_paths := fst (extract_key_frames B video_path) in
    let r := fst (analyze_video B self_model video_path) in
    map FrameAnalysis.analysis (VideoAssessment.frame_analyses r) =
      map (fun path => fst (analyze_image B None path)) frame_paths /\
    (VideoAssessment.overall_result r = "error" <-> frame_paths = []) /\
    (frame_paths <> [] ->
     VideoAssessment.overall_result r =
       _calculate_video_assessment (VideoAssessment.frame_analyses r) /\
     In (VideoAssessment.overall_result r) ["fail"; "warning"; "pass"] /\
     VideoAssessment.duration r = snd (extract_key_frames B video_path) /\
     VideoAssessment.error r = None /\
     VideoAssessment.summary r =
       Some {| VideoSummary.frames_analyzed := length frame_paths;
               VideoSummary.total_components :=
                 length (flat_map frame_components
                                  (VideoAssessment.frame_analyses r));
               VideoSummary.total_violations :=
                 length (flat_map frame_violations
                                  (VideoAssessment.frame_analyses r)) |}).
Proof.
  intros B self_model video_path frame_paths r. subst frame_paths r.
  unfold analyze_video.
  destruct (extract_key_frames B video_path) as [frame_paths duration].
  cbn [fst snd]. destruct frame_paths as [|p ps].
  - cbn. split; [reflexivity|]. split; [tauto | intros H; contradiction].
  - match goal with
    | |- context [analyze_frames B 0 ?l ?s] =>
        destruct (analyze_frames_appends B l 0 s) as [new [E1 [E2 [E3 E4]]]];
        set (st := analyze_frames B 0 l s) in *
    end.
    cbn [loop_frame_analyses loop_all_components loop_all_violations app]
      in E1, E3, E4.
    cbn [fst VideoAssessment.frame_analyses VideoAssessment.overall_result
         VideoAssessment.duration VideoAssessment.error
         VideoAssessment.summary].
    rewrite E1, E3, E4.
    assert (N : new <> []).
    { intros ->. discriminate E2. }
    pose proof (video_assessment_values new N) as V.
    split; [exact E2|]. split.
    + split; [|discriminate]. intros H. rewrite H in V.
      destruct V as [V|[V|[V|[]]]]; discriminate V.
    + intros _. repeat split; auto.
      f_equal. f_equal.
      rewrite <- (length_map FrameAnalysis.analysis new), E2, length_map.
      reflexivity.
Qed.

Lemma video_all_error (frame_analyses : list FrameAnalysis.t) :
  frame_analyses <> [] ->
  Forall (fun a => Analysis.overall_result a = Some "error")
         (map FrameAnalysis.analysis frame_analyses) ->
  _calculate_video_assessment frame_analyses = "warning".
Proof.
  intros N H. destruct frame_analyses as [|f fs]; [contradiction|].
  unfold _calculate_video_assessment.
  set (results := map _ (f :: fs)).
  assert (R : Forall (fun result => result = "error") results).
  { subst results. rewrite Forall_map in H. rewrite Forall_map.
    eapply Forall_impl; [|exact H]. intros a Ha. cbn in Ha. now rewrite Ha. }
  assert (F : list_in "fail" results = false).
  { apply list_in_not_In. intros I. rewrite Forall_forall in R.
    apply R in I. discriminate. }
  assert (W : list_in "warning" results = false).
  { apply list_in_not_In. intros I. rewrite Forall_forall in R.
    apply R in I. discriminate. }
  rewrite F, W.
  destruct (forallb _ results) eqn:P; [|reflexivity].
  apply all_pass_Forall in P. subst results. cbn [map] in R, P.
  inversion R; subst. inversion P; subst. congruence.
Qed.

(** X8.  A video whose frames are extracted but of which no still can be
    loaded is rated warning, not error: every frame analysis is an error
    dict, no component or violation is counted, and the fold over results
    that are all error falls to its last branch. *)
Theorem undecodable_frames_give_warning :
  forall (B : Backend) (self_model : option (keras_model B))
         (video_path : string),
    fst (extract_key_frames B video_path) <> [] ->
    (forall path, exists e, pil_load B path = Raise e) ->
    let r := fst (analyze_video B self_model video_path) in
    VideoAssessment.overall_result r = "warning" /\
    Forall (fun f => Analysis.overall_result (FrameAnalysis.analysis f) =
                     Some "error")
           (VideoAssessment.frame_analyses r) /\
    length (VideoAssessment.frame_analyses r) =
      length (fst (extract_key_frames B video_path)) /\
    flat_map frame_components (VideoAssessment.frame_analyses r) = [] /\
    flat_map frame_violations (VideoAssessment.frame_analyses r) = [].
Proof.
  intros B self_model video_path N Hl r. subst r.
  assert (A : forall path,
            exists e, fst (analyze_image B None path) = analysis_error e).
  { intros path. destruct (Hl path) as [e E].
    exists ("Error preprocessing image: " ++ e)%string.
    unfold analyze_image, analyze_image_body, preprocess_image.
    now rewrite E. }
  unfold analyze_video. revert N.
  destruct (extract_key_frames B video_path) as [frame_paths duration].
  cbn [fst]. intros N. destruct frame_paths as [|p ps]; [contradiction|].
  match goal with
  | |- context [analyze_frames B 0 ?l ?s] =>
      destruct (analyze_frames_appends B l 0 s) as [new [E1 [E2 _]]];
      set (st := analyze_frames B 0 l s) in *
  end.
  cbn [loop_frame_analyses app] in E1.
  cbn [fst VideoAssessment.frame_analyses VideoAssessment.overall_result].
  rewrite E1.
  assert (F : Forall (fun a => exists e, a = analysis_error e)
                     (map FrameAnalysis.analysis new)).
  { rewrite E2. apply Forall_map, Forall_forall. intros path _. apply A. }
  assert (L : length new = length (p :: ps)).
  { now rewrite <- (length_map FrameAnalysis.analysis new), E2, length_map. }
  assert (Nn : new <> []) by (intros ->; discriminate L).
  rewrite Forall_map in F.
  split; [|split; [|split; [|split]]].
  - apply video_all_error; [exact Nn|]. rewrite Forall_map.
    eapply Forall_impl; [|exact F]. intros f [e ->]. reflexivity.
  - eapply Forall_impl; [|exact F]. intros f [e ->]. reflexivity.
  - exact L.
  - clear -F. induction F as [|f fs [e Hf] _ IH]; [reflexivity|].
    cbn [flat_map]. unfold frame_components at 1. now rewrite Hf, IH.
  - clear -F. induction F as [|f fs [e Hf] _ IH]; [reflexivity|].
    cbn [flat_map]. unfold frame_violations at 1. now rewrite Hf, IH.
Qed.

Lemma undecodable_frames_give_warning_witness :
  VideoAssessment.overall_result
    (fst (analyze_video
            (backend_with (fun _ => Raise "cannot identify image file")
                          (Return mock_detected_components) (seq 0 45) 30)
            None "/uploads/v.mp4")) = "warning".
Proof.
  apply (undecodable_frames_give_warning
           (backend_with (fun _ => Raise "cannot identify image file")
                         (Return mock_detected_components) (seq 0 45) 30)
           None "/uploads/v.mp4").
  - vm_compute. discriminate.
  - intros path. now exists "cannot identify image file".
Defined.

(** ** Which frames are extracted *)

Lemma read_frames_paths (B : Backend) (temp_dir : string) :
  (forall path image, cv2_imwrite B path image = Return tt) ->
  forall (frames : list (frame B)) (frame_count : nat)
         (extracted_frames : list string),
    read_frames B temp_dir frames frame_count extracted_frames =
    Return
      (extracted_frames ++
       map (fun n =>
              os_path_join B temp_dir
                ("frame_" ++ str_of_nat n ++ ".jpg")%string)
           (filter is_key_frame (seq frame_count (length frames))),
       frame_count + length frames).
Proof.
  intros Hw frames.
  induction frames as [|image frames IH]; intros frame_count extracted_frames.
  - cbn. now rewrite app_nil_r, Nat.add_0_r.
  - cbn [read_frames length seq filter]. unfold is_key_frame at 1.
    replace (S frame_count) with (frame_count + 1) by lia.
    destruct (frame_count mod frame_extraction_interval =? 0)%nat.
    + rewrite Hw. cbn [bind]. rewrite IH, <- app_assoc. cbn [map app].
      do 2 f_equal. lia.
    + rewrite IH. do 2 f_equal. lia.
Qed.

(** The key frames below [n] are the multiples of the interval. *)
Lemma key_frames_below (n : nat) :
  filter is_key_frame (seq 0 n) =
  map (fun k => k * frame_extraction_interval)
      (seq 0 ((n + 29) / frame_extraction_interval)).
Proof.
  unfold frame_extraction_interval.
  induction n as [|n IH]; [reflexivity|].
  rewrite seq_S, filter_app, IH. cbn [filter]. unfold is_key_frame.
  unfold frame_extraction_interval. rewrite Nat.add_0_l.
  pose proof (Nat.div_mod_eq n 30) as D.
  pose proof (Nat.mod_upper_bound n 30 ltac:(lia)) as U.
  set (q := n / 30) in *. set (r := n mod 30) in *.
  destruct (Nat.eqb_spec r 0) as [R|R].
  - assert (E1 : (n + 29) / 30 = q).
    { symmetry. apply (Nat.div_unique _ _ _ 29); lia. }
    assert (E2 : (S n + 29) / 30 = q + 1).
    { symmetry. apply (Nat.div_unique _ _ _ 0); lia. }
    rewrite E1, E2, Nat.add_1_r, seq_S, map_app, Nat.add_0_l. cbn [map].
    do 2 f_equal. lia.
  - assert (E1 : (n + 29) / 30 = q + 1).
    { symmetry. apply (Nat.div_unique _ _ _ (r - 1)); lia. }
    assert (E2 : (S n + 29) / 30 = q + 1).
    { symmetry. apply (Nat.div_unique _ _ _ r); lia. }
    rewrite E1, E2. now rewrite app_nil_r.
Qed.

Lemma nth_error_seq (start len k j : nat) :
  nth_error (seq start len) k = Some j -> j = start + k.
Proof.
  revert start k. induction len as [|len IH]; intros start k; cbn [seq].
  - destruct k; discriminate.
  - destruct k as [|k]; cbn [nth_error].
    + intros H. injection H as <-. lia.
    + intros H. apply IH in H. lia.
Qed.

Lemma analyze_video_analyses (B : Backend)
    (self_model : option (keras_model B)) (video_path : string) :
  map FrameAnalysis.analysis
      (VideoAssessment.frame_analyses
         (fst (analyze_video B self_model video_path))) =
  map (fun path => fst (analyze_image B None path))
      (fst (extract_key_frames B video_path)).
Proof.
  unfold analyze_video.
  destruct (extract_key_frames B video_path) as [frame_paths duration].
  cbn [fst]. destruct frame_paths as [|p ps]; [reflexivity|].
  match goal with
  | |- context [analyze_frames B 0 ?l ?s] =>
      destruct (analyze_frames_appends B l 0 s) as [new [E1 [E2 _]]]
  end.
  cbn [fst VideoAssessment.frame_analyses]. rewrite E1. exact E2.
Qed.

Lemma analyze_video_frame_numbers (B : Backend)
    (self_model : option (keras_model B)) (video_path : string)
    (k : nat) (f : FrameAnalysis.t) :
  nth_error (VideoAssessment.frame_analyses
               (fst (analyze_video B self_model video_path))) k = Some f ->
  FrameAnalysis.frame_number f = k * frame_extraction_interval.
Proof.
  unfold analyze_video.
  destruct (extract_key_frames B video_path) as [frame_paths duration].
  destruct frame_paths as [|p ps].
  - cbn. destruct k; discriminate.
  - cbn [fst VideoAssessment.frame_analyses].
    match goal with
    | |- context [analyze_frames B 0 ?l ?s] =>
        destruct (analyze_frames_numbers B l 0 s) as [new [E [_ N]]]
    end.
    rewrite E. cbn [loop_frame_analyses app]. intros Hk.
    now apply N in Hk.
Qed.

(** X9.  When the directory can be created and every still written,
    [extract_key_frames] returns one path for every 30th frame of the video,
    starting with frame 0: for a video of n frames these are the files
    frame_0.jpg, frame_30.jpg, ... in the temp_frames directory,
    ceil(n / 30) of them.  So a video with at least one readable frame always
    yields a path, and the k-th path is the still of frame k * 30, the frame
    number [analyze_video] records for the k-th analysis. *)
Theorem extracted_frame_paths :
  forall (B : Backend) (video_path : string),
    os_makedirs B
      (os_path_join B (os_path_dirname B video_path) "temp_frames") =
      Return tt ->
    (forall path image, cv2_imwrite B path image = Return tt) ->
    let n := length (cv2_frames B video_path) in
    let frame_paths := fst (extract_key_frames B video_path) in
    frame_paths =
      map (fun k => frame_file B video_path (k * 30)) (seq 0 ((n + 29) / 30)) /\
    length frame_paths = (n + 29) / 30 /\
    (cv2_frames B video_path <> [] -> frame_paths <> []) /\
    (forall self_model k f,
       nth_error
         (VideoAssessment.frame_analyses
            (fst (analyze_video B self_model video_path))) k = Some f ->
       FrameAnalysis.analysis f =
         fst (analyze_image B None
                (frame_file B video_path (FrameAnalysis.frame_number f)))).
Proof.
  intros B video_path Hmk Hw n frame_paths.
  assert (E : frame_paths =
              map (fun k => frame_file B video_path (k * 30))
                  (seq 0 ((n + 29) / 30))).
  { subst frame_paths n.
    unfold extract_key_frames, extract_key_frames_body.
    rewrite Hmk. cbn [bind]. rewrite (read_frames_paths B _ Hw).
    cbn [bind try_except fst app]. rewrite key_frames_below, map_map.
    reflexivity. }
  split; [exact E|]. split; [|split].
  - now rewrite E, length_map, length_seq.
  - intros N. rewrite E. subst n.
    destruct (cv2_frames B video_path) as [|x xs]; [contradiction|].
    cbn [length].
    assert (Q : 1 <= (S (length xs) + 29) / 30).
    { apply Nat.div_le_lower_bound; lia. }
    destruct ((S (length xs) + 29) / 30); [lia | discriminate].
  - intros self_model k f Hk.
    pose proof (analyze_video_analyses B self_model video_path) as S.
    fold frame_paths in S.
    assert (A : nth_error (map FrameAnalysis.analysis
                  (VideoAssessment.frame_analyses
                     (fst (analyze_video B self_model video_path)))) k =
                Some (FrameAnalysis.analysis f)).
    { now rewrite nth_error_map, Hk. }
    rewrite S, nth_error_map, E, nth_error_map in A.
    destruct (nth_error (seq 0 ((n + 29) / 30)) k) as [j|] eqn:J;
      [|discriminate A].
    cbn [option_map] in A. injection A as A. rewrite <- A.
    apply nth_error_seq in J. cbn [Nat.add] in J. subst j.
    now rewrite (analyze_video_frame_numbers B self_model video_path k f Hk).
Qed.

Lemma extracted_frame_paths_witness :
  fst (extract_key_frames (mock_backend (seq 0 61) 30) "/uploads/v.mp4") =
    ["/uploads/temp_frames/frame_0.jpg"; "/uploads/temp_frames/frame_30.jpg";
     "/uploads/temp_frames/frame_60.jpg"] /\
  length (fst (extract_key_frames (mock_backend (seq 0 61) 30)
                                  "/uploads/v.mp4")) = (61 + 29) / 30.
Proof.
  split; [reflexivity|].
  apply (extracted_frame_paths (mock_backend (seq 0 61) 30) "/uploads/v.mp4"
           eq_refl (fun _ _ => eq_refl)).
Defined.

(** ** The fold over frames *)

Lemma list_in_perm (x : string) (l l' : list string) :
  Permutation l l' -> list_in x l = list_in x l'.
Proof.
  intros P. destruct (list_in x l') eqn:E.
  - apply list_in_In. apply list_in_In in E.
    now apply (Permutation_in _ (Permutation_sym P)).
  - apply list_in_not_In. apply list_in_not_In in E.
    intros H. apply E. now apply (Permutation_in _ P).
Qed.

Lemma forallb_perm {A : Type} (f : A -> bool) (l l' : list A) :
  Permutation l l' -> forallb f l = forallb f l'.
Proof.
  intros P. induction P; simpl; try congruence.
  now rewrite !andb_assoc, (andb_comm (f y)).
Qed.

(** X10.  The video verdict does not depend on the order of the frame
    analyses, and further frames never give a better verdict: the fold of a
    list extended by further analyses ranks at least as high (pass below
    warning below fail). *)
Theorem video_verdict_order_and_growth :
  forall frame_analyses frame_analyses' extra : list FrameAnalysis.t,
    (Permutation frame_analyses frame_analyses' ->
     _calculate_video_assessment frame_analyses =
     _calculate_video_assessment frame_analyses') /\
    verdict_rank (_calculate_video_assessment frame_analyses) <=
      verdict_rank (_calculate_video_assessment (frame_analyses ++ extra)).
Proof.
  intros fs fs' extra. split.
  - intros P. unfold _calculate_video_assessment.
    pose proof (Permutation_map frame_result P) as Pm.
    unfold frame_result in Pm.
    rewrite (list_in_perm "fail" _ _ Pm), (list_in_perm "warning" _ _ Pm),
      (forallb_perm _ _ _ Pm).
    destruct fs as [|f l], fs' as [|f' l']; try reflexivity.
    + apply Permutation_nil in P. discriminate.
    + apply Permutation_sym, Permutation_nil in P. discriminate.
  - destruct fs as [|f l]; [cbn; lia|].
    cbn [app]. unfold _calculate_video_assessment.
    change (f :: l ++ extra) with ((f :: l) ++ extra).
    rewrite !map_app. set (rs := map _ (f :: l)). set (es := map _ extra).
    assert (I : forall x, list_in x (rs ++ es) = list_in x rs || list_in x es).
    { intros x. induction rs as [|r rs IH]; [reflexivity|].
      cbn [app list_in]. now rewrite IH, orb_assoc. }
    rewrite !I, forallb_app.
    set (pr := forallb (fun result => (result =? "pass")%string) rs).
    set (pe := forallb (fun result => (result =? "pass")%string) es).
    destruct (list_in "fail" rs), (list_in "fail" es),
      (list_in "warning" rs), (list_in "warning" es), pr, pe; cbn; lia.
Qed.

Lemma video_verdict_order_and_growth_witness :
  _calculate_video_assessment
    (map frame_with_result [Some "pass"; Some "fail"]) =
  _calculate_video_assessment
    (map frame_with_result [Some "fail"; Some "pass"]).
Proof.
  apply (video_verdict_order_and_growth
           (map frame_with_result [Some "pass"; Some "fail"])
           (map frame_with_result [Some "fail"; Some "pass"]) []).
  apply perm_swap.
Defined.

(* ================================================================== *)
(** * Further properties of code_query_service.py *)
(* ================================================================== *)

(** ** Keyword extraction *)

Lemma all_chars_app (p : ascii -> bool) (a b : string) :
  all_chars p (a ++ b)%string = all_chars p a && all_chars p b.
Proof.
  induction a as [|c a IH]; [reflexivity|].
  cbn [String.append all_chars]. now rewrite IH, andb_assoc.
Qed.

Lemma lower_ascii_not_upper (c : ascii) : not_upper (lower_ascii c) = true.
Proof. destruct c as [[] [] [] [] [] [] [] []]; reflexivity. Qed.

Lemma lower_not_upper (s : string) : all_chars not_upper (lower s) = true.
Proof.
  induction s as [|c s IH]; [reflexivity|].
  cbn [lower all_chars]. now rewrite lower_ascii_not_upper, IH.
Qed.

Lemma lower_ascii_fixed (c : ascii) :
  not_upper c = true -> lower_ascii c = c.
Proof.
  unfold not_upper, lower_ascii. now destruct (is_upper c).
Qed.

Lemma lower_lower (s : string) : lower (lower s) = lower s.
Proof.
  induction s as [|c s IH]; [reflexivity|].
  cbn [lower]. rewrite IH.
  now rewrite (lower_ascii_fixed _ (lower_ascii_not_upper c)).
Qed.

(** Every word [findall_words] returns is a run of word characters that
    occurs in the text read, the current run included. *)
Lemma findall_words_run (s : string) :
  forall (current w : string),
    all_chars is_word_char current = true ->
    In w (findall_words s current) ->
    all_chars is_word_char w = true /\
    w <> EmptyString /\
    exists a b, (current ++ s)%string = (a ++ w ++ b)%string.
Proof.
  induction s as [|c s IH]; intros current w Hc Hw.
  - cbn [findall_words] in Hw. destruct current as [|d current];
      [contradiction|]. destruct Hw as [<-|[]].
    split; [exact Hc|]. split; [discriminate|].
    exists EmptyString, EmptyString. cbn [String.append].
    now rewrite !append_nil_r.
  - cbn [findall_words] in Hw. destruct (is_word_char c) eqn:W.
    + apply IH in Hw.
      * destruct Hw as [H1 [H2 [a [b E]]]]. split; [exact H1|].
        split; [exact H2|]. exists a, b. rewrite <- E.
        now rewrite append_assoc.
      * rewrite all_chars_app. cbn [all_chars]. now rewrite Hc, W.
    + destruct current as [|d current].
      * apply (IH EmptyString) in Hw; [|reflexivity].
        destruct Hw as [H1 [H2 [a [b E]]]]. split; [exact H1|].
        split; [exact H2|]. exists (String c a), b.
        cbn [String.append] in *. now rewrite E.
      * destruct Hw as [<-|Hw].
        -- split; [exact Hc|]. split; [discriminate|].
           exists EmptyString, (String c s). reflexivity.
        -- apply (IH EmptyString) in Hw; [|reflexivity].
           destruct Hw as [H1 [H2 [a [b E]]]]. split; [exact H1|].
           split; [exact H2|].
           exists (String d current ++ String c a)%string, b.
           cbn [String.append] in E. rewrite E.
           rewrite append_assoc. reflexivity.
Qed.

(** X11.  For a query of ASCII characters, every keyword
    [_extract_keywords] returns is a run of at least three word characters
    without an upper-case letter, is not a stop word, and occurs in the
    lower-cased query.  The letter case of the query does not matter. *)
Theorem extracted_keywords :
  forall query : string,
    is_ascii query ->
    (forall keyword, In keyword (_extract_keywords query) ->
       2 < String.length keyword /\
       ~ In keyword stop_words /\
       all_chars is_word_char keyword = true /\
       all_chars not_upper keyword = true /\
       str_in keyword (lower query) = true) /\
    _extract_keywords (lower query) = _extract_keywords query.
Proof.
  intros query _. split.
  - intros keyword H. unfold _extract_keywords in H.
    apply filter_In in H. destruct H as [Hw Hf].
    apply andb_true_iff in Hf. destruct Hf as [Hs Hl].
    apply (findall_words_run _ EmptyString) in Hw; [|reflexivity].
    destruct Hw as [H1 [_ [a [b E]]]]. cbn [String.append] in E.
    split; [now apply Nat.ltb_lt|].
    split.
    { apply list_in_not_In. now destruct (list_in keyword stop_words). }
    split; [exact H1|]. split.
    + pose proof (lower_not_upper query) as L. rewrite E in L.
      rewrite !all_chars_app in L.
      apply andb_true_iff in L. destruct L as [_ L].
      apply andb_true_iff in L. tauto.
    + apply str_in_spec. now exists a, b.
  - unfold _extract_keywords. now rewrite lower_lower.
Qed.

Lemma extracted_keywords_witness :
  is_ascii "What size breaker do I need for a 20 amp circuit?" /\
  _extract_keywords "What size breaker do I need for a 20 amp circuit?" =
    ["size"; "breaker"; "need"; "amp"; "circuit"] /\
  _extract_keywords
    (lower "What size breaker do I need for a 20 amp circuit?") =
  _extract_keywords "What size breaker do I need for a 20 amp circuit?".
Proof.
  split; [reflexivity|]. split; [reflexivity|].
  apply (extracted_keywords
           "What size breaker do I need for a 20 amp circuit?").
  reflexivity.
Defined.

(** ** Scoring *)

Lemma list_sum_pos (l : list nat) :
  0 < list_sum l <-> exists n, In n l /\ 0 < n.
Proof.
  induction l as [|x l IH]; simpl.
  - split; [lia | intros [n [[] _]]].
  - split.
    + intros H. destruct (Nat.eq_dec x 0) as [E|E].
      * assert (H' : 0 < list_sum l) by lia. apply IH in H'.
        destruct H' as [n [Hn Hp]]. exists n. split; [now right | exact Hp].
      * exists x. split; [now left | lia].
    + intros [n [[<-|Hn] Hp]]; [lia|].
      assert (0 < list_sum l) by (apply IH; eauto). lia.
Qed.

Lemma list_sum_bound (l : list nat) (b : nat) :
  (forall n, In n l -> n <= b) -> list_sum l <= length l * b.
Proof.
  induction l as [|x l IH]; intros H; simpl; [lia|].
  assert (x <= b) by (apply H; now left).
  assert (list_sum l <= length l * b) by (apply IH; intros; apply H; now right).
  lia.
Qed.

(** X12.  The score of an entry counts the pairs of a query token and an
    entry keyword in which one occurs inside the other, equal strings
    among them, once each.  It is at most the number of pairs, and it is
    positive, so that the entry is a match, exactly when some token and some
    keyword contain one another. *)
Theorem score_counts_containing_pairs :
  forall keywords section_keywords : list string,
    score_section keywords section_keywords =
      sum_pairs code_pair_score keywords section_keywords /\
    score_section keywords section_keywords <=
      length keywords * length section_keywords /\
    (0 < score_section keywords section_keywords <->
     exists keyword section_keyword,
       In keyword keywords /\ In section_keyword section_keywords /\
       (str_in keyword section_keyword = true \/
        str_in section_keyword keyword = true)).
Proof.
  intros ks sks. rewrite score_section_sum. split; [reflexivity|].
  unfold sum_pairs. split.
  - apply Nat.le_trans with (length (map (fun token =>
        list_sum (map (code_pair_score token) sks)) ks) * length sks).
    + apply list_sum_bound. intros n Hn. apply in_map_iff in Hn.
      destruct Hn as [k [<- _]].
      apply Nat.le_trans with (length (map (code_pair_score k) sks) * 1).
      * apply list_sum_bound. intros m Hm. apply in_map_iff in Hm.
        destruct Hm as [sk [<- _]]. unfold code_pair_score.
        destruct (_ || _); lia.
      * rewrite length_map. lia.
    + rewrite length_map. lia.
  - rewrite list_sum_pos. split.
    + intros [n [Hn Hp]]. apply in_map_iff in Hn. destruct Hn as [k [<- Hk]].
      apply list_sum_pos in Hp. destruct Hp as [m [Hm Hq]].
      apply in_map_iff in Hm. destruct Hm as [sk [<- Hsk]].
      exists k, sk. split; [exact Hk|]. split; [exact Hsk|].
      unfold code_pair_score in Hq.
      destruct (str_in k sk); [now left|].
      destruct (str_in sk k); [now right | cbn in Hq; lia].
    + intros [k [sk [Hk [Hsk Hc]]]].
      exists (list_sum (map (code_pair_score k) sks)). split.
      * apply in_map_iff. now exists k.
      * apply list_sum_pos. exists (code_pair_score k sk). split.
        -- apply in_map_iff. now exists sk.
        -- unfold code_pair_score.
           destruct Hc as [-> | ->]; [|rewrite orb_true_r]; cbn; lia.
Qed.

(** ** Sorting the matches *)

Lemma compare_cont_Eq_antisym (p q : positive) :
  Pos.compare_cont Eq p q = CompOpp (Pos.compare_cont Eq q p).
Proof. now rewrite (Pos.compare_cont_antisym q p Eq). Qed.

Lemma SFcompare_Lt_asym (x y : spec_float) :
  SFcompare x y = Some Lt -> SFcompare y x = Some Gt.
Proof.
  destruct x as [sx|sx| |sx mx ex], y as [sy|sy| |sy my ey]; simpl;
    try discriminate;
    try (destruct sx); try (destruct sy); try discriminate; try reflexivity;
    rewrite (Z.compare_antisym ey ex), (compare_cont_Eq_antisym mx my);
    destruct (ey ?= ex)%Z; destruct (Pos.compare_cont Eq my mx); simpl;
    try discriminate; reflexivity.
Qed.

(** On floats [<] is asymmetric. *)
Lemma ltb_asym (x y : float) :
  (x <? y)%float = true -> (y <? x)%float = false.
Proof.
  rewrite !ltb_spec. unfold SFltb. intros H.
  destruct (SFcompare (Prim2SF x) (Prim2SF y)) as [[| |]|] eqn:E;
    try discriminate.
  now rewrite (SFcompare_Lt_asym _ _ E).
Qed.

Lemma ltb_irrefl (x : float) : (x <? x)%float = false.
Proof.
  destruct (x <? x)%float eqn:E; [|reflexivity].
  pose proof (ltb_asym _ _ E). congruence.
Qed.

Lemma insert_match_sorted (x : string * float) (l : list (string * float)) :
  sorted_desc l -> sorted_desc (insert_match x l).
Proof.
  induction l as [|y l IH]; intros S; [cbn; auto|].
  cbn [insert_match]. destruct (snd x <? snd y)%float eqn:E.
  - destruct S as [Sy Sl]. specialize (IH Sl).
    cbn [sorted_desc]. split; [|exact IH].
    destruct l as [|z l]; cbn [insert_match].
    + now apply ltb_asym.
    + destruct (snd x <? snd z)%float; [exact Sy | now apply ltb_asym].
  - cbn [sorted_desc]. split; [exact E|]. exact S.
Qed.

Lemma sort_matches_sorted (l : list (string * float)) :
  sorted_desc (sort_matches l).
Proof.
  induction l as [|x l IH]; [exact I|].
  cbn [sort_matches]. now apply insert_match_sorted.
Qed.

Lemma insert_match_perm (x : string * float) (l : list (string * float)) :
  Permutation (insert_match x l) (x :: l).
Proof.
  induction l as [|y l IH]; [reflexivity|].
  cbn [insert_match]. destruct (snd x <? snd y)%float; [|reflexivity].
  rewrite IH. apply perm_swap.
Qed.

Lemma sort_matches_perm (l : list (string * float)) :
  Permutation (sort_matches l) l.
Proof.
  induction l as [|x l IH]; [reflexivity|].
  cbn [sort_matches]. rewrite insert_match_perm. now constructor.
Qed.

Lemma insert_match_with_score (t : float) (x : string * float)
    (l : list (string * float)) :
  with_score t (insert_match x l) = with_score t (x :: l).
Proof.
  unfold with_score. induction l as [|y l IH]; [reflexivity|].
  cbn [insert_match]. destruct (snd x <? snd y)%float eqn:E; [|reflexivity].
  cbn [filter] in *. rewrite IH.
  destruct (PrimFloat.Leibniz.eqb (snd x) t) eqn:X; [|reflexivity].
  destruct (PrimFloat.Leibniz.eqb (snd y) t) eqn:Y; [|reflexivity].
  apply Leibniz.eqb_spec in X, Y. rewrite X, Y, ltb_irrefl in E.
  discriminate.
Qed.

(** X13.  The sort of the matches keeps every match, puts no match before
    a strictly better one, is stable (matches of one score come out in the
    order they went in), and leaves a list that is already in order
    untouched. *)
Theorem sort_matches_stable :
  forall l : list (string * float),
    Permutation (sort_matches l) l /\
    sorted_desc (sort_matches l) /\
    (forall t, with_score t (sort_matches l) = with_score t l) /\
    (sorted_desc l -> sort_matches l = l).
Proof.
  intros l. split; [apply sort_matches_perm|].
  split; [apply sort_matches_sorted|]. split.
  - intros t. induction l as [|x l IH]; [reflexivity|].
    cbn [sort_matches]. rewrite insert_match_with_score.
    unfold with_score in *. cbn [filter]. now rewrite IH.
  - induction l as [|x l IH]; [reflexivity|].
    intros [Hx Hl]. cbn [sort_matches]. rewrite (IH Hl).
    destruct l as [|y l]; [reflexivity|].
    cbn [insert_match]. now rewrite Hx.
Qed.

(** ** The search *)

Lemma sorted_desc_firstn (n : nat) (l : list (string * float)) :
  sorted_desc l -> sorted_desc (firstn n l).
Proof.
  revert l. induction n as [|n IH]; intros l S; [exact I|].
  destruct l as [|x l]; [exact I|]. destruct S as [Sx Sl].
  cbn [firstn sorted_desc]. split; [|now apply IH].
  destruct l as [|y l]; [destruct n; exact I|].
  destruct n; [exact I | exact Sx].
Qed.

Lemma In_firstn {A : Type} (n : nat) (l : list A) (x : A) :
  In x (firstn n l) -> In x l.
Proof.
  revert l. induction n as [|n IH]; intros l; [intros []|].
  destruct l as [|y l]; [intros []|]. cbn [firstn].
  intros [E|H]; [now left | right; now apply IH].
Qed.

Lemma search_loop_entries (keywords : list string)
    (database : list (string * NecSection.t)) :
  forall (matches : list (string * float)) (m : string * float),
    In m (fold_left (search_section keywords) database matches) ->
    In m matches \/
    exists data,
      In (fst m, data) database /\
      0 < score_section keywords (get_default (NecSection.keywords data) []) /\
      snd m =
        truediv
          (score_section keywords (get_default (NecSection.keywords data) []))
          (length keywords +
           length (get_default (NecSection.keywords data) [])).
Proof.
  induction database as [|[section_id data] database IH]; intros matches m;
    cbn [fold_left]; [auto|].
  intros H. apply IH in H. destruct H as [H|[d [H1 H2]]].
  - unfold search_section in H. cbn [fst snd] in H.
    destruct (Nat.ltb_spec 0 (score_section keywords
                (get_default (NecSection.keywords data) []))) as [P|P];
      [|now left].
    apply in_app_or in H. destruct H as [H|[<-|[]]]; [now left|].
    right. exists data. cbn [fst snd]. split; [now left|]. now split.
  - right. exists d. split; [now right | exact H2].
Qed.

(** X14.  [_search_nec_sections] returns at most three matches, none
    placed before a strictly better one.  Each is an entry of the table
    whose raw score is positive, with that score divided by the number of
    query tokens plus the number of the entry's keywords.  Without tokens,
    or on an empty table, there is no match. *)
Theorem search_results :
  forall (self : CodeQueryService) (keywords : list string),
    let matches := _search_nec_sections self keywords in
    length matches <= 3 /\
    sorted_desc matches /\
    (forall m, In m matches ->
       exists data,
         In (fst m, data) (nec_database self) /\
         0 < score_section keywords
               (get_default (NecSection.keywords data) []) /\
         snd m =
           truediv
             (score_section keywords
                (get_default (NecSection.keywords data) []))
             (length keywords +
              length (get_default (NecSection.keywords data) []))) /\
    (keywords = [] \/ nec_database self = [] -> matches = []).
Proof.
  intros self keywords matches. subst matches. unfold _search_nec_sections.
  split; [|split; [|split]].
  - rewrite length_firstn. lia.
  - apply sorted_desc_firstn, sort_matches_sorted.
  - intros m H. apply In_firstn in H.
    apply (Permutation_in _ (sort_matches_perm _)) in H.
    apply search_loop_entries in H. destruct H as [[]|H]. exact H.
  - intros H.
    assert (E : fold_left (search_section keywords) (nec_database self) [] =
                []).
    { destruct H as [->| ->]; [|reflexivity].
      induction (nec_database self) as [|item db IH]; [reflexivity|].
      cbn [fold_left]. exact IH. }
    now rewrite E.
Qed.

(** ** The fast path *)


(** ** [process_query] as a whole *)






(** ** Advisory notes *)



(** ** Missing keys in the composer *)

Lemma add_related_bound_inv (self : CodeQueryService)
    (rest : list (string * float)) :
  forall (st st' : list string * list Reference.t),
    add_related self rest st = Return st' ->
    Forall (fun m => dict_get (nec_database self) (fst m) <> None) rest.
Proof.
  induction rest as [|[section_id score] rest IH]; intros st st';
    [constructor|].
  cbn [add_related]. unfold dict_item.
  destruct (dict_get (nec_database self) section_id) as [data|] eqn:G;
    cbn [bind]; [|discriminate].
  intros H. apply IH in H. constructor; [cbn; congruence | exact H].
Qed.

Lemma add_related_raises (self : CodeQueryService)
    (known : list (string * float)) (section_id : string) (score : float)
    (rest : list (string * float)) :
  Forall (fun m => dict_get (nec_database self) (fst m) <> None) known ->
  dict_get (nec_database self) section_id = None ->
  forall st,
    add_related self (known ++ (section_id, score) :: rest) st =
    Raise (py_repr section_id).
Proof.
  intros K N. induction K as [|[id s] known Hid _ IH]; intros st.
  - cbn [app add_related]. unfold dict_item. now rewrite N.
  - cbn [app add_related]. unfold dict_item. cbn [fst] in Hid.
    destruct (dict_get (nec_database self) id); [|contradiction].
    cbn [bind]. apply IH.
Qed.

Lemma no_quote_in_plain (q : ascii) (s : string) :
  all_chars is_plain_char s = true ->
  is_plain_char q = false ->
  str_in (String q EmptyString) s = false.
Proof.
  intros H Q. induction s as [|c s IH]; [reflexivity|].
  cbn [all_chars] in H. apply andb_true_iff in H. destruct H as [Hc Hs].
  cbn [str_in is_prefix]. rewrite (IH Hs), andb_true_r, orb_false_r.
  destruct (Ascii.eqb_spec q c) as [->|_]; [congruence | reflexivity].
Qed.

Lemma repr_body_plain (s : string) :
  all_chars is_plain_char s = true -> repr_body apostrophe s = s.
Proof.
  induction s as [|c s IH]; [reflexivity|].
  cbn [all_chars repr_body]. intros H. apply andb_true_iff in H.
  destruct H as [Hc Hs]. rewrite (IH Hs).
  assert (E : repr_char apostrophe c = String c EmptyString).
  { clear -Hc. destruct c as [[] [] [] [] [] [] [] []];
      try discriminate Hc; reflexivity. }
  now rewrite E.
Qed.

(** On a text of printable ASCII characters without apostrophe or
    backslash, [repr] only adds the apostrophes. *)
Lemma py_repr_plain (s : string) :
  all_chars is_plain_char s = true ->
  py_repr s = (String apostrophe s ++ String apostrophe EmptyString)%string.
Proof.
  intros H. unfold py_repr, repr_quote.
  rewrite (no_quote_in_plain apostrophe s H) by reflexivity.
  cbn [andb]. now rewrite (repr_body_plain s H).
Qed.

(** X18.  [_generate_response] returns a response exactly when every
    match names an entry of the table.  Otherwise it raises at the first
    match, in order, that names none, and composes nothing for the matches
    before it: the KeyError of that section id, whose text, for an id of
    ASCII characters, is [repr] of the id; for an id of letters, digits and
    punctuation other than the apostrophe and the backslash that is the id
    between apostrophes. *)
Theorem generate_response_key_error :
  forall (self : CodeQueryService) (query : string)
         (relevant_sections : list (string * float)),
    ((exists r, _generate_response self query relevant_sections = Return r) <->
     Forall (fun m => dict_get (nec_database self) (fst m) <> None)
            relevant_sections) /\
    (forall known section_id score rest,
       relevant_sections = known ++ (section_id, score) :: rest ->
       Forall (fun m => dict_get (nec_database self) (fst m) <> None) known ->
       dict_get (nec_database self) section_id = None ->
       exists e,
         _generate_response self query relevant_sections = Raise e /\
         (is_ascii section_id -> e = py_repr section_id) /\
         (all_chars is_plain_char section_id = true ->
          e = (String apostrophe section_id ++
               String apostrophe EmptyString)%string)).
Proof.
  intros self query relevant_sections. split.
  - split.
    + intros [r H].
      destruct relevant_sections as [|[primary_section primary_relevance] rest];
        [constructor|].
      cbn [_generate_response] in H. unfold dict_item in H.
      destruct (dict_get (nec_database self) primary_section) as [data|] eqn:G;
        cbn [bind] in H; [|discriminate].
      constructor; [cbn; congruence|].
      match type of H with
      | context [add_related self rest ?s] =>
          destruct (add_related self rest s) as [st|e] eqn:A;
            cbn [bind] in H; [|discriminate]
      end.
      now apply add_related_bound_inv in A.
    + intros F. apply generate_response_returns.
      intros section_id Hin. apply in_map_iff in Hin.
      destruct Hin as [m [<- Hm]]. rewrite Forall_forall in F. now apply F.
  - intros known section_id score rest -> K N.
    exists (py_repr section_id). split; [|split].
    + destruct known as [|[primary_section primary_relevance] known].
      * cbn [app _generate_response]. unfold dict_item. now rewrite N.
      * cbn [app _generate_response]. unfold dict_item.
        inversion K as [|m l Hp Hk]; subst. cbn [fst] in Hp.
        destruct (dict_get (nec_database self) primary_section);
          [|contradiction].
        cbn [bind]. now rewrite (add_related_raises self known _ _ _ Hk N).
    + reflexivity.
    + apply py_repr_plain.
Qed.

(** ** Related queries *)


(* ================================================================== *)
(** * Properties of routes/inspection.py and models/user.py *)
(* ================================================================== *)

(** ** File names *)

Lemma rsplit_last_none (s : string) :
  rsplit_last dot s = None <-> all_chars not_dot s = true.
Proof.
  induction s as [|c s IH]; cbn [rsplit_last all_chars]; [tauto|].
  unfold not_dot at 1.
  destruct (rsplit_last dot s) as [[a b]|].
  - split; [discriminate|]. intros H. apply andb_true_iff in H.
    destruct H as [_ H]. apply IH in H. discriminate.
  - destruct (Ascii.eqb c dot); cbn [negb andb].
    + split; discriminate.
    + split; intros _; [now apply IH | reflexivity].
Qed.

Lemma rsplit_last_some (s a b : string) :
  rsplit_last dot s = Some (a, b) <->
  s = (a ++ String dot b)%string /\ all_chars not_dot b = true.
Proof.
  revert a. induction s as [|c s IH]; intros a; cbn [rsplit_last].
  - split; [discriminate|]. intros [E _]. destruct a; discriminate.
  - destruct (rsplit_last dot s) as [[a' b']|] eqn:R.
    + split.
      * intros H. injection H as <- <-.
        destruct (proj1 (IH a') eq_refl) as [-> Hb]. now split.
      * intros [E Hb]. destruct a as [|d a]; cbn [String.append] in E.
        -- injection E as -> ->. apply rsplit_last_none in Hb. congruence.
        -- injection E as -> ->.
           assert (X : Some (a', b') = Some (a, b)) by (apply IH; now split).
           now injection X as -> ->.
    + apply rsplit_last_none in R. split.
      * destruct (Ascii.eqb_spec c dot) as [->|N]; [|discriminate].
        intros H. injection H as <- <-. now split.
      * intros [E Hb]. destruct a as [|d a]; cbn [String.append] in E.
        -- injection E as -> ->. now rewrite Ascii.eqb_refl.
        -- injection E as -> ->. rewrite all_chars_app in R.
           apply andb_true_iff in R. destruct R as [_ R].
           cbn [all_chars] in R. unfold not_dot at 1 in R.
           rewrite Ascii.eqb_refl in R. discriminate.
Qed.

(** X20.  [allowed_file] never raises: the index [1] is only taken when
    the name contains a dot.  It accepts a name exactly when the name is some
    base (possibly empty), a dot, and an extension without a dot whose
    lower-case form is in the allowed set: only what follows the last dot
    counts, in any letter case. *)
Theorem allowed_file_last_extension :
  forall (filename : string) (allowed_extensions : list string),
    exists accepted,
      allowed_file filename allowed_extensions = Return accepted /\
      (accepted = true <->
       exists base extension,
         filename = (base ++ String dot extension)%string /\
         all_chars not_dot extension = true /\
         list_in (lower extension) allowed_extensions = true).
Proof.
  intros filename allowed_extensions. unfold allowed_file, rsplit1.
  destruct (str_in (String dot EmptyString) filename) eqn:D.
  - apply str_in_spec in D. destruct D as [a [b D]].
    destruct (rsplit_last dot filename) as [[base extension]|] eqn:R.
    + cbn [list_item nth_error bind].
      exists (list_in (lower extension) allowed_extensions).
      split; [reflexivity|]. apply rsplit_last_some in R.
      destruct R as [E Hb]. split.
      * intros H. now exists base, extension.
      * intros [base' [extension' [E' [Hb' H]]]].
        assert (X : rsplit_last dot filename = Some (base', extension'))
          by (apply rsplit_last_some; now split).
        assert (Y : rsplit_last dot filename = Some (base, extension))
          by (apply rsplit_last_some; now split).
        rewrite X in Y. now injection Y as <- <-.
    + exfalso. apply rsplit_last_none in R. rewrite D in R.
      rewrite all_chars_app in R. apply andb_true_iff in R.
      destruct R as [_ R]. cbn in R. discriminate.
  - exists false. split; [reflexivity|]. split; [discriminate|].
    intros [base [extension [E _]]].
    assert (X : str_in (String dot EmptyString) filename = true).
    { apply str_in_spec. exists base, extension. exact E. }
    congruence.
Qed.

(** ** The upload quota *)

Lemma upload_step (now0 now : Datetime.t) (proceeds : bool) (user : User.t) :
  User.subscription_tier user = FREEMIUM ->
  same_month now now0 ->
  let done := fst (upload_image_usage now proceeds user) in
  let user' := snd (upload_image_usage now proceeds user) in
  User.subscription_tier user' = FREEMIUM /\
  (0 <= quota_left now0 user)%Z /\
  done = proceeds && (0 <? quota_left now0 user)%Z /\
  quota_left now0 user' =
    (quota_left now0 user - (if done then 1 else 0))%Z.
Proof.
  intros T [Hm Hy] done user'. subst done user'.
  unfold upload_image_usage, can_upload, quota_left. rewrite T.
  cbn [tier_eqb negb]. rewrite <- Hm, <- Hy.
  destruct (Z.eqb_spec (Datetime.month (User.last_reset_date user))
                       (Datetime.month now)) as [Em|Em];
    destruct (Z.eqb_spec (Datetime.year (User.last_reset_date user))
                         (Datetime.year now)) as [Ey|Ey];
    cbn [negb orb andb set_usage User.monthly_uploads User.last_reset_date];
    try (destruct proceeds;
         cbn [andb fst snd increment_upload_count set_usage
              User.monthly_uploads User.last_reset_date
              User.subscription_tier];
         rewrite ?Z.eqb_refl; cbn [andb]; repeat split; try exact T; lia).
  destruct (Z.ltb_spec (User.monthly_uploads user) 3) as [L|L];
    destruct proceeds;
    cbn [andb fst snd increment_upload_count set_usage
         User.monthly_uploads User.last_reset_date User.subscription_tier];
    rewrite ?Em, ?Ey, ?Z.eqb_refl; cbn [andb];
    (split; [exact T|]); (split; [lia|]);
    (split; [destruct (Z.ltb_spec 0 (Z.max 0 (3 - User.monthly_uploads user)));
             try reflexivity; lia | lia]).
Qed.

(** X21.  A freemium user gets exactly the quota that is left in a
    calendar month: over any run of upload requests made within one month,
    the uploads that go through are as many as the requests that pass the
    route's own checks, capped by the quota left at the start (3 when the
    counter was last reset in another month, otherwise 3 minus the counter,
    at least 0).  With a counter that is not negative that is never more
    than 3. *)
Theorem freemium_monthly_quota :
  forall (now0 : Datetime.t) (requests : list (Datetime.t * bool))
         (user : User.t),
    User.subscription_tier user = FREEMIUM ->
    Forall (fun request => same_month (fst request) now0) requests ->
    Z.of_nat (fst (upload_requests requests user)) =
      Z.min (quota_left now0 user)
            (Z.of_nat (length (filter snd requests))) /\
    User.subscription_tier (snd (upload_requests requests user)) = FREEMIUM /\
    ((0 <= User.monthly_uploads user)%Z ->
     fst (upload_requests requests user) <= 3).
Proof.
  intros now0 requests.
  assert (G : forall user,
            User.subscription_tier user = FREEMIUM ->
            Forall (fun request => same_month (fst request) now0) requests ->
            Z.of_nat (fst (upload_requests requests user)) =
              Z.min (quota_left now0 user)
                    (Z.of_nat (length (filter snd requests))) /\
            User.subscription_tier (snd (upload_requests requests user)) =
              FREEMIUM).
  { induction requests as [|[now proceeds] requests IH]; intros user T F.
    - cbn. split; [|exact T]. unfold quota_left.
      destruct (_ && _); lia.
    - inversion F as [|x l Hs F']; subst. cbn [fst] in Hs.
      destruct (upload_step now0 now proceeds user T Hs)
        as [T' [Q [D E]]].
      cbn [upload_requests].
      destruct (upload_image_usage now proceeds user) as [done user'].
      cbn [fst snd] in T', D, E.
      destruct (IH user' T' F') as [IH1 IH2].
      destruct (upload_requests requests user') as [count user''].
      cbn [fst snd] in IH1, IH2 |- *. split; [|exact IH2].
      cbn [filter snd]. rewrite E in IH1.
      destruct proceeds; cbn [andb] in D; subst done.
      + cbn [length]. destruct (Z.ltb_spec 0 (quota_left now0 user)); lia.
      + lia. }
  intros user T F. destruct (G user T F) as [G1 G2].
  split; [exact G1|]. split; [exact G2|].
  intros P. assert (quota_left now0 user <= 3)%Z.
  { unfold quota_left. destruct (_ && _); lia. }
  lia.
Qed.

Lemma freemium_monthly_quota_witness :
  let now := Datetime.mk 2026 11 4 9 30 0 0 in
  let user := User.mk 1 "ann" "ann@example.org" "hash" FREEMIUM
                      (Datetime.mk 2026 1 1 0 0 0 0) None true 3
                      (Datetime.mk 2026 10 28 0 0 0 0) in
  fst (upload_requests
         [(now, true); (now, true); (now, false); (now, true); (now, true)]
         user) = 3.
Proof.
  cbv zeta.
  pose proof (freemium_monthly_quota
                (Datetime.mk 2026 11 4 9 30 0 0)
                [(Datetime.mk 2026 11 4 9 30 0 0, true);
                 (Datetime.mk 2026 11 4 9 30 0 0, true);
                 (Datetime.mk 2026 11 4 9 30 0 0, false);
                 (Datetime.mk 2026 11 4 9 30 0 0, true);
                 (Datetime.mk 2026 11 4 9 30 0 0, true)]
                (User.mk 1 "ann" "ann@example.org" "hash" FREEMIUM
                         (Datetime.mk 2026 1 1 0 0 0 0) None true 3
                         (Datetime.mk 2026 10 28 0 0 0 0))
                eq_refl
                ltac:(repeat constructor)) as [H _].
  apply Nat2Z.inj. rewrite H. reflexivity.
Defined.

(** X22.  A user of a paid tier is never refused: every request that
    passes the route's checks goes through, whatever the counter says.  The
    counter still counts those uploads and is never reset, so a count built
    up on a paid tier is what a later freemium month starts from. *)
Theorem paid_tiers_unlimited :
  forall (requests : list (Datetime.t * bool)) (user : User.t),
    User.subscription_tier user <> FREEMIUM ->
    let n := length (filter snd requests) in
    fst (upload_requests requests user) = n /\
    User.monthly_uploads (snd (upload_requests requests user)) =
      (User.monthly_uploads user + Z.of_nat n)%Z /\
    User.last_reset_date (snd (upload_requests requests user)) =
      User.last_reset_date user /\
    User.subscription_tier (snd (upload_requests requests user)) =
      User.subscription_tier user.
Proof.
  intros requests.
  induction requests as [|[now proceeds] requests IH]; intros user T n.
  - subst n. cbn. repeat split. lia.
  - subst n. cbn [upload_requests].
    assert (E : upload_image_usage now proceeds user =
                if proceeds then (true, increment_upload_count user)
                else (false, user)).
    { unfold upload_image_usage, can_upload.
      destruct (User.subscription_tier user); [contradiction| | |];
        now destruct proceeds. }
    rewrite E. destruct proceeds.
    + assert (T' : User.subscription_tier (increment_upload_count user) <>
                   FREEMIUM) by exact T.
      specialize (IH (increment_upload_count user) T'). cbv zeta in IH.
      destruct (upload_requests requests (increment_upload_count user))
        as [count user''].
      cbn [fst snd filter length] in *. destruct IH as (I1 & I2 & I3 & I4).
      rewrite I1, I2, I3, I4. cbn. repeat split. lia.
    + specialize (IH user T). cbv zeta in IH.
      destruct (upload_requests requests user) as [count user''].
      cbn [fst snd filter length] in *. exact IH.
Qed.

Lemma paid_tiers_unlimited_witness :
  fst (upload_requests
         [(Datetime.mk 2026 11 4 9 30 0 0, true);
          (Datetime.mk 2026 11 4 9 31 0 0, true);
          (Datetime.mk 2026 11 4 9 32 0 0, true);
          (Datetime.mk 2026 11 4 9 33 0 0, true)]
         (User.mk 2 "bob" "bob@example.org" "hash" ENTERPRISE
                  (Datetime.mk 2026 1 1 0 0 0 0) None true 7
                  (Datetime.mk 2026 10 28 0 0 0 0))) = 4.
Proof.
  apply (paid_tiers_unlimited
           [(Datetime.mk 2026 11 4 9 30 0 0, true);
            (Datetime.mk 2026 11 4 9 31 0 0, true);
            (Datetime.mk 2026 11 4 9 32 0 0, true);
            (Datetime.mk 2026 11 4 9 33 0 0, true)]
           (User.mk 2 "bob" "bob@example.org" "hash" ENTERPRISE
                    (Datetime.mk 2026 1 1 0 0 0 0) None true 7
                    (Datetime.mk 2026 10 28 0 0 0 0))).
  discriminate.
Defined.

(* ================================================================== *)
(** * What the fast-path patterns match *)
(* ================================================================== *)

Section PatternLanguage.
#[local] Open Scope string_scope.

Lemma matches_any (s : string) : matches (Star Dot) s <-> one_line s.
Proof.
  unfold one_line. split.
  - intros H. remember (Star Dot) as r eqn:R.
    induction H; try discriminate; [reflexivity|].
    injection R as ->. apply matches_Dot_inv in H.
    destruct H as [a [-> Ha]]. cbn [String.append all_chars].
    rewrite IHmatches2 by reflexivity. unfold not_newline.
    destruct (Ascii.eqb_spec a newline); [contradiction | reflexivity].
  - induction s as [|c s IH]; intros H; [constructor|].
    cbn [all_chars] in H. apply andb_true_iff in H. destruct H as [Hc Hs].
    change (String c s) with (String c "" ++ s). constructor; [|now apply IH].
    constructor. unfold not_newline in Hc.
    destruct (Ascii.eqb_spec c newline); [discriminate | assumption].
Qed.

Lemma matches_word (w u : string) : matches (word w) u <-> lower u = lower w.
Proof.
  revert u. induction w as [|c w IH]; intros u; cbn [word lower].
  - split.
    + intros H. apply matches_Eps_inv in H. now subst.
    + intros H. destruct u; [constructor | discriminate].
  - split.
    + intros H. apply matches_Cat_inv in H.
      destruct H as [x [v [-> [Hx Hv]]]]. apply matches_Lit_inv in Hx.
      destruct Hx as [a [-> Ha]]. apply IH in Hv.
      cbn [String.append lower]. now rewrite Ha, Hv.
    + intros H. destruct u as [|a u]; [discriminate|].
      cbn [lower] in H. injection H as Ha Hu.
      change (String a u) with (String a "" ++ u).
      constructor; [now constructor | now apply IH].
Qed.

Lemma matches_one_of (ws : list string) (u : string) :
  matches (one_of ws) u <-> word_of ws u.
Proof.
  unfold word_of. induction ws as [|w ws IH]; cbn [one_of].
  - split; [intros H; now apply matches_Empty in H | intros [w [[] _]]].
  - destruct ws as [|w' ws].
    + rewrite matches_word. split.
      * intros H. exists w. split; [now left | exact H].
      * intros [x [[<-|[]] H]]. exact H.
    + split.
      * intros H. apply matches_Alt_inv in H. destruct H as [H|H].
        -- apply matches_word in H. exists w. split; [now left | exact H].
        -- apply IH in H. destruct H as [x [Hx H]].
           exists x. split; [now right | exact H].
      * intros [x [[<-|Hx] H]].
        -- apply MAltL. now apply matches_word.
        -- apply MAltR. apply IH. now exists x.
Qed.

Lemma matches_two_groups (first second : list string) (p : string) :
  matches (two_groups first second) p <->
  exists a w1 b w2 c,
    p = a ++ w1 ++ b ++ w2 ++ c /\
    one_line a /\ word_of first w1 /\ one_line b /\ word_of second w2 /\
    one_line c.
Proof.
  unfold two_groups. split.
  - intros H.
    apply matches_Cat_inv in H. destruct H as [a [p1 [-> [Ha H]]]].
    apply matches_Cat_inv in H. destruct H as [w1 [p2 [-> [H1 H]]]].
    apply matches_Cat_inv in H. destruct H as [b [p3 [-> [Hb H]]]].
    apply matches_Cat_inv in H. destruct H as [w2 [c [-> [H2 Hc]]]].
    exists a, w1, b, w2, c. split; [reflexivity|].
    now rewrite <- !matches_any, <- !matches_one_of.
  - intros (a & w1 & b & w2 & c & -> & Ha & H1 & Hb & H2 & Hc).
    repeat constructor;
      try (now apply matches_any); now apply matches_one_of.
Qed.

(** What a pattern [.*first.*second.*] accepts. *)
Lemma two_groups_language (first second : list string) (query : string) :
  re_match (two_groups first second) query = true <->
  exists a w1 b w2 rest,
    query = a ++ w1 ++ b ++ w2 ++ rest /\
    one_line a /\ word_of first w1 /\ one_line b /\ word_of second w2.
Proof.
  rewrite re_match_matches. split.
  - intros [p [q [-> H]]]. apply matches_two_groups in H.
    destruct H as (a & w1 & b & w2 & c & -> & Ha & H1 & Hb & H2 & Hc).
    exists a, w1, b, w2, (c ++ q). split; [|now repeat split].
    now rewrite !append_assoc.
  - intros (a & w1 & b & w2 & rest & -> & Ha & H1 & Hb & H2).
    exists (a ++ w1 ++ b ++ w2 ++ ""), rest. split.
    + now rewrite !append_assoc.
    + apply matches_two_groups. exists a, w1, b, w2, "".
      now repeat split.
Qed.

(** X23.  Which queries take a fast path.  For a query of ASCII characters
    and the patterns of the service: [_match_query_patterns] answers with the
    GFCI template (primary reference 210.8) exactly when the query holds,
    before any line break, "gfci" and after it, on the same line, "required",
    "need" or "install", in any letter case; and it answers at all exactly
    when, for one of the four patterns, the query holds before any line break
    a word of the pattern's first group and after it, on the same line, a
    word of its second group, in any letter case.  The order of the two words
    matters. *)
Theorem fast_path_language :
  forall query : string,
    is_ascii query ->
    ((exists m,
        _match_query_patterns new_CodeQueryService query = Some m /\
        PatternMatch.primary_reference m = "210.8") <->
     exists a g b k rest,
       query = a ++ g ++ b ++ k ++ rest /\
       one_line a /\ lower g = "gfci" /\ one_line b /\
       (lower k = "required" \/ lower k = "need" \/ lower k = "install")) /\
    (_match_query_patterns new_CodeQueryService query <> None <->
     exists first second a w1 b w2 rest,
       In (first, second) fast_path_groups /\
       query = a ++ w1 ++ b ++ w2 ++ rest /\
       one_line a /\ word_of first w1 /\ one_line b /\ word_of second w2).
Proof.
  intros query _.
  pose proof (two_groups_language ["gfci"] ["required"; "need"; "install"]
                query) as G1.
  pose proof (two_groups_language ["grounding"; "ground"]
                ["size"; "conductor"; "wire"] query) as G2.
  pose proof (two_groups_language ["box fill"; "junction box"; "outlet box"]
                ["calculation"; "size"; "conductors"] query) as G3.
  pose proof (two_groups_language ["clearance"; "working space"; "panel"]
                ["distance"; "feet"; "inches"] query) as G4.
  fold gfci_pattern in G1. fold grounding_pattern in G2.
  fold box_fill_pattern in G3. fold clearance_pattern in G4.
  unfold _match_query_patterns. cbn [common_patterns new_CodeQueryService].
  unfold _initialize_query_patterns. cbn [match_patterns Pattern.pattern].
  split.
  - assert (E : (exists a g b k rest,
                   query = a ++ g ++ b ++ k ++ rest /\
                   one_line a /\ lower g = "gfci" /\ one_line b /\
                   (lower k = "required" \/ lower k = "need" \/
                    lower k = "install")) <->
                re_match gfci_pattern query = true).
    { rewrite G1. split.
      - intros (a & g & b & k & rest & E & Ha & Hg & Hb & Hk).
        exists a, g, b, k, rest. split; [exact E|]. split; [exact Ha|].
        split; [exists "gfci"; split; [now left | exact Hg]|].
        split; [exact Hb|].
        destruct Hk as [Hk|[Hk|Hk]];
          [exists "required" | exists "need" | exists "install"];
          (split; [cbn; auto | exact Hk]).
      - intros (a & g & b & k & rest & E & Ha & [w [Hw Hg]] & Hb &
                [v [Hv Hk]]).
        exists a, g, b, k, rest. split; [exact E|]. split; [exact Ha|].
        split; [destruct Hw as [<-|[]]; exact Hg|]. split; [exact Hb|].
        destruct Hv as [<-|[<-|[<-|[]]]]; auto. }
    rewrite E. clear E.
    destruct (re_match gfci_pattern query).
    + split; [reflexivity|]. intros _. eexists. split; reflexivity.
    + split; [|discriminate]. intros [m [H R]].
      destruct (re_match grounding_pattern query);
        [injection H as <-; discriminate R|].
      destruct (re_match box_fill_pattern query);
        [injection H as <-; discriminate R|].
      destruct (re_match clearance_pattern query);
        [injection H as <-; discriminate R | discriminate H].
  - split.
    + intros H.
      destruct (re_match gfci_pattern query).
      { destruct (proj1 G1 eq_refl) as (a & w1 & b & w2 & rest & R).
        exists ["gfci"], ["required"; "need"; "install"], a, w1, b, w2, rest.
        split; [cbn; auto | exact R]. }
      destruct (re_match grounding_pattern query).
      { destruct (proj1 G2 eq_refl) as (a & w1 & b & w2 & rest & R).
        exists ["grounding"; "ground"], ["size"; "conductor"; "wire"],
          a, w1, b, w2, rest.
        split; [cbn; auto | exact R]. }
      destruct (re_match box_fill_pattern query).
      { destruct (proj1 G3 eq_refl) as (a & w1 & b & w2 & rest & R).
        exists ["box fill"; "junction box"; "outlet box"],
          ["calculation"; "size"; "conductors"], a, w1, b, w2, rest.
        split; [cbn; auto | exact R]. }
      destruct (re_match clearance_pattern query).
      { destruct (proj1 G4 eq_refl) as (a & w1 & b & w2 & rest & R).
        exists ["clearance"; "working space"; "panel"],
          ["distance"; "feet"; "inches"], a, w1, b, w2, rest.
        split; [cbn; auto | exact R]. }
      contradiction.
    + intros (first & second & a & w1 & b & w2 & rest & Hin & R).
      assert (X : exists a w1 b w2 rest,
                query = a ++ w1 ++ b ++ w2 ++ rest /\
                one_line a /\ word_of first w1 /\ one_line b /\
                word_of second w2) by (exists a, w1, b, w2, rest; exact R).
      destruct Hin as [Hin|[Hin|[Hin|[Hin|[]]]]];
        injection Hin as <- <-.
      * apply G1 in X. rewrite X. discriminate.
      * apply G2 in X. rewrite X.
        destruct (re_match gfci_pattern query); discriminate.
      * apply G3 in X. rewrite X.
        destruct (re_match gfci_pattern query);
          [|destruct (re_match grounding_pattern query)]; discriminate.
      * apply G4 in X. rewrite X.
        destruct (re_match gfci_pattern query);
          [|destruct (re_match grounding_pattern query);
            [|destruct (re_match box_fill_pattern query)]]; discriminate.
Qed.

Lemma fast_path_language_witness :
  is_ascii "Is GFCI required in a kitchen?" /\
  exists a g b k rest,
    "Is GFCI required in a kitchen?" = a ++ g ++ b ++ k ++ rest /\
    one_line a /\ lower g = "gfci" /\ one_line b /\
    (lower k = "required" \/ lower k = "need" \/ lower k = "install").
Proof.
  split; [reflexivity|].
  apply (fast_path_language "Is GFCI required in a kitchen?" eq_refl).
  eexists. split; reflexivity.
Defined.

End PatternLanguage.

(* ================================================================== *)
(** * A directory that cannot be made *)
(* ================================================================== *)

(** X24.  When the temp_frames directory cannot be made ([os.makedirs]
    raises), [extract_key_frames] returns no frame path and duration 0,
    whatever the video holds, and [analyze_video] answers with result error,
    duration 0, no frame analysis and the text that no frame could be
    extracted. *)
Theorem makedirs_failure_gives_error :
  forall (B : Backend) (self_model : option (keras_model B))
         (video_path e : string),
    os_makedirs B
      (os_path_join B (os_path_dirname B video_path) "temp_frames") =
      Raise e ->
    extract_key_frames B video_path = ([], PInt 0) /\
    fst (analyze_video B self_model video_path) =
      {| VideoAssessment.frame_analyses := [];
         VideoAssessment.overall_result := "error";
         VideoAssessment.duration := PInt 0;
         VideoAssessment.summary := None;
         VideoAssessment.error :=
           Some "Could not extract frames from video" |}.
Proof.
  intros B self_model video_path e H.
  assert (E : extract_key_frames B video_path = ([], PInt 0)).
  { unfold extract_key_frames, extract_key_frames_body. now rewrite H. }
  split; [exact E|]. unfold analyze_video. now rewrite E.
Qed.

Lemma makedirs_failure_gives_error_witness :
  VideoAssessment.overall_result
    (fst (analyze_video
            {| ndarray := unit;
               keras_model := unit;
               frame := nat;
               keras_sequential := Return tt;
               pil_load := fun _ => Return tt;
               model_detect := fun _ => Return mock_detected_components;
               np_mean := fun _ => 0%float;
               tf_timestamp := Return 0%float;
               pil_size := fun _ => Return (224, 224)%Z;
               cv2_frames := fun _ => seq 0 40;
               cv2_fps := fun _ => 30%float;
               cv2_imwrite := fun _ _ => Return tt;
               os_makedirs := fun _ => Raise "[Errno 13] Permission denied";
               os_path_dirname := fun _ => "/uploads";
               os_path_join := fun a b => (a ++ "/" ++ b)%string |}
            None "/uploads/v.mp4")) = "error".
Proof.
  match goal with
  | |- VideoAssessment.overall_result (fst (analyze_video ?b _ _)) = _ =>
      destruct (makedirs_failure_gives_error b None "/uploads/v.mp4"
                  "[Errno 13] Permission denied" eq_refl) as [_ E]
  end.
  rewrite E. reflexivity.
Defined.
